(** * Taskpacker: the Numberjack scheduling model of [numberjack_scheduler]

    A shallow embedding of [egfscheduler/numberjack_scheduler.py].  The
    function builds a constraint model out of work units, hands it to the
    Numberjack engine and writes the verdict back on the tasks.  Python
    dictionaries are finite maps, raised exceptions are the [Raise] branch of
    an error monad, and the mutable [scheduled] attribute of the tasks lives
    in an explicit store that the call threads through. *)

From Stdlib Require Import ZArith Lia.
From stdpp Require Import base strings numbers option list gmap.

Local Open Scope Z_scope.

Set Warnings "-register-all".

(** ** Domain model *)

(** Python objects are compared and hashed by identity: [res_id] and
    [task_id] stand for the identity of the object. *)
Record Resource := mkResource { res_id : nat; capacity : Z }.

Record Task := mkTask {
  task_id : nat;
  duration : Z;
  resources : list Resource
}.

#[global] Instance Resource_eq_dec : EqDecision Resource.
Proof. solve_decision. Defined.

#[global] Instance Resource_countable : Countable Resource.
Proof.
  refine (inj_countable' (λ r, (res_id r, capacity r))
                         (λ p, mkResource p.1 p.2) _).
  by intros [].
Defined.

#[global] Instance Task_eq_dec : EqDecision Task.
Proof. solve_decision. Defined.

#[global] Instance Task_countable : Countable Task.
Proof.
  refine (inj_countable' (λ t, (task_id t, duration t, resources t))
                         (λ p, mkTask p.1.1 p.1.2 p.2) _).
  by intros [].
Defined.

(** ** The fragment of Numberjack the scheduler uses *)

Module nj.

(** Every decision variable the scheduler creates is stored under a
    dictionary key; the key names the variable. *)
Inductive VarId :=
| StartOf (task : Task)
| SlotOf (task : Task) (resource : Resource)
| ZeroId
| CmaxId.

#[global] Instance VarId_eq_dec : EqDecision VarId.
Proof. solve_decision. Defined.

(** [nj.Variable(lb, ub)]: an integer variable with domain [lb..ub]. *)
Record Var := mkVariable { var_id : VarId; var_lb : Z; var_ub : Z }.

(** [nj.Task]: a start-time variable tagged with a duration. *)
Record Task := mkTask { start_var : Var; duration : Z }.

#[global] Instance Var_eq_dec : EqDecision Var.
Proof. solve_decision. Defined.

#[global] Instance Task_eq_dec : EqDecision Task.
Proof. solve_decision. Defined.

Definition new_Variable (id : VarId) (lb ub : Z) : Var := mkVariable id lb ub.

(** [nj.Variable([0])]: a variable whose domain is the list [[0]]. *)
Definition new_Variable_list0 (id : VarId) : Var := mkVariable id 0 0.

(** [nj.Task(ub, dur)].  Numberjack's constructor reads the two-argument
    call as "earliest start time 0, latest end time [ub], duration
    [dur]": it stores [lb = 0], [ub = arg1 - arg2] and [duration = arg2]
    for the start time. *)
Definition new_Task (id : VarId) (arg1 arg2 : Z) : Task :=
  mkTask (mkVariable id 0 (arg1 - arg2)) arg2.

Inductive Expr :=
| EVar (v : Var)
| ETask (t : Task)
| EConst (z : Z)
| EAdd (a b : Expr)
| ESub (a b : Expr)
| EMul (a b : Expr)
| EMax (es : list Expr).

Inductive Constr :=
| CLe (a b : Expr)
| CLt (a b : Expr)
| CGt (a b : Expr)
| CEq (a b : Expr)                  (* nj.Eq([a, b]) *)
| COr (c d : Constr)                (* nj.Or([c, d]) *)
| CAllDiff (es : list Expr)
| CUnaryResource (ts : list Task).

(** What [model.add] receives: a constraint or the objective. *)
Inductive Item :=
| Post (c : Constr)
| Minimize (e : Expr).

(** Python's [sum(list)]: starts from [0] and adds from the left. *)
Definition py_sum (es : list Expr) : Expr := fold_left EAdd es (EConst 0).

(** *** Meaning of a model under a valuation of the variables *)

Definition Valuation := VarId → Z.

Definition get_value (a : Valuation) (v : Var) : Z := a (var_id v).

Definition max_list (zs : list Z) : Z :=
  match zs with
  | [] => 0
  | z :: zs' => fold_left Z.max zs' z
  end.

Fixpoint eval (a : Valuation) (e : Expr) : Z :=
  match e with
  | EVar v => get_value a v
  | ETask t => get_value a (start_var t)
  | EConst z => z
  | EAdd x y => eval a x + eval a y
  | ESub x y => eval a x - eval a y
  | EMul x y => eval a x * eval a y
  | EMax es => max_list (List.map (eval a) es)
  end.

Definition in_domain (a : Valuation) (v : Var) : bool :=
  (var_lb v <=? get_value a v) && (get_value a v <=? var_ub v).

(** Every variable below an expression takes a value of its domain. *)
Fixpoint expr_dom (a : Valuation) (e : Expr) : bool :=
  match e with
  | EVar v => in_domain a v
  | ETask t => in_domain a (start_var t)
  | EConst _ => true
  | EAdd x y | ESub x y | EMul x y => expr_dom a x && expr_dom a y
  | EMax es => forallb (expr_dom a) es
  end.

Fixpoint constr_dom (a : Valuation) (c : Constr) : bool :=
  match c with
  | CLe x y | CLt x y | CGt x y | CEq x y => expr_dom a x && expr_dom a y
  | COr c d => constr_dom a c && constr_dom a d
  | CAllDiff es => forallb (expr_dom a) es
  | CUnaryResource ts => forallb (λ t, in_domain a (start_var t)) ts
  end.

(** [R] holds between every element and every later one. *)
Fixpoint pairwise {A} (R : A → A → bool) (l : list A) : bool :=
  match l with
  | [] => true
  | x :: xs => forallb (R x) xs && pairwise R xs
  end.

(** The intervals [start, start + duration) of two tasks are apart. *)
Definition apart (a : Valuation) (t u : Task) : bool :=
  (get_value a (start_var t) + duration t <=? get_value a (start_var u))
  || (get_value a (start_var u) + duration u <=? get_value a (start_var t)).

Fixpoint holds (a : Valuation) (c : Constr) : bool :=
  match c with
  | CLe x y => eval a x <=? eval a y
  | CLt x y => eval a x <? eval a y
  | CGt x y => eval a x >? eval a y
  | CEq x y => eval a x =? eval a y
  | COr c d => holds a c || holds a d
  | CAllDiff es => pairwise (λ x y, negb (x =? y)) (List.map (eval a) es)
  | CUnaryResource ts => pairwise (apart a) ts
  end.

Definition item_ok (a : Valuation) (it : Item) : bool :=
  match it with
  | Post c => constr_dom a c && holds a c
  | Minimize e => expr_dom a e
  end.

(** [a] is a solution of the model: a feasible point, whatever the
    objective makes of it. *)
Definition satisfies (a : Valuation) (model : list Item) : bool :=
  forallb (item_ok a) model.

End nj.

(** A custom constraint of a work unit: a callable from the work unit's
    Numberjack tasks to a constraint. *)
Definition ConstraintBuilder := list nj.Task → nj.Constr.

Inductive WorkUnit := mkWorkUnit {
  name : string;
  tasks : list Task;
  constraints : list ConstraintBuilder;
  parents : list WorkUnit;
  due_time : option Z;
  priority : Z;
  scheduled_start : option Z
}.

(** [task.scheduled]: start, end and the slot taken on each resource. *)
Definition Scheduled : Type := Z * Z * gmap Resource Z.

(** The [scheduled] attribute of all task objects. *)
Definition Store := gmap Task Scheduled.

(** ** Exceptions *)

Inductive exn :=
| IndexError
| KeyError
| ValueError (msg : string)
| EngineError (msg : string).

Inductive result (A : Type) :=
| Ok (x : A)
| Raise (e : exn).
Arguments Ok {A} x.
Arguments Raise {A} e.

#[global] Instance result_ret : MRet result := λ A x, Ok x.
#[global] Instance result_bind : MBind result := λ A B f m,
  match m with
  | Ok x => f x
  | Raise e => Raise e
  end.
#[global] Instance result_fmap : FMap result := λ A B f m,
  match m with
  | Ok x => Ok (f x)
  | Raise e => Raise e
  end.

(** [d[k]] on a dictionary. *)
Definition getitem `{Countable K} {V} (d : gmap K V) (k : K) : result V :=
  match d !! k with
  | Some v => Ok v
  | None => Raise KeyError
  end.

(** [l[0]] and [l[-1]] on a list. *)
Definition first_item {A} (l : list A) : result A :=
  match head l with
  | Some x => Ok x
  | None => Raise IndexError
  end.

Definition last_item {A} (l : list A) : result A :=
  match last l with
  | Some x => Ok x
  | None => Raise IndexError
  end.

(** [itertools.combinations(l, 2)]: the pairs of positions [i < j], in
    lexicographic order. *)
Fixpoint combinations2 {A} (l : list A) : list (A * A) :=
  match l with
  | [] => []
  | x :: xs => List.map (pair x) xs ++ combinations2 xs
  end.

(** ** Model builder *)

Definition all_tasks_of (work_units : list WorkUnit) : list Task :=
  flat_map tasks work_units.

(** A dictionary comprehension inserts in iteration order; a key met again
    is overwritten. *)
Definition dict_of {A} `{Countable K} {V} (key : A → K) (val : A → V)
    (l : list A) : gmap K V :=
  fold_left (λ d x, <[key x := val x]> d) l ∅.

(** [nj.Task(upper_bound, task.duration)], stored under [task]. *)
Definition nj_task_of (upper_bound : Z) (task : Task) : nj.Task :=
  nj.new_Task (nj.StartOf task) upper_bound (duration task).

(** [nj.Variable(1, resource.capacity)], stored under [task] and [resource]. *)
Definition slot_var (task : Task) (resource : Resource) : nj.Var :=
  nj.new_Variable (nj.SlotOf task resource) 1 (capacity resource).

Definition make_nj_tasks (upper_bound : Z) (all_tasks : list Task)
    : gmap Task nj.Task :=
  dict_of id (nj_task_of upper_bound) all_tasks.

Definition make_nj_taskresources (all_tasks : list Task)
    : gmap Task (gmap Resource nj.Var) :=
  dict_of id (λ task, dict_of id (slot_var task) (resources task)) all_tasks.

(** [list(set([...]))]: every resource once; the order of a Python set is
    not specified, the order of first occurrence is taken here. *)
Definition make_all_resources (all_tasks : list Task) : list Resource :=
  remove_dups (flat_map resources all_tasks).

(** *** Resource contention (the loop over [all_resources]) *)

Definition requires (resource : Resource) (task : Task) : Prop :=
  resource ∈ resources task.

Definition both_require (resource : Resource) (p : Task * Task) : Prop :=
  requires resource p.1 ∧ requires resource p.2.

#[global] Instance requires_dec resource task : Decision (requires resource task).
Proof. unfold requires. apply _. Defined.

#[global] Instance both_require_dec resource p : Decision (both_require resource p).
Proof. unfold both_require. apply _. Defined.

(** The disjunction posted for a pair of tasks on a pooled resource. *)
Definition pool_constr (t u : nj.Task) (st su : nj.Var) : nj.Constr :=
  nj.COr
    (nj.COr
       (nj.CLe (nj.EAdd (nj.ETask t) (nj.EConst (nj.duration t))) (nj.ETask u))
       (nj.CLe (nj.EAdd (nj.ETask u) (nj.EConst (nj.duration u))) (nj.ETask t)))
    (nj.CAllDiff [nj.EVar st; nj.EVar su]).

Definition pool_pair
    (nj_tasks : gmap Task nj.Task)
    (nj_taskresources : gmap Task (gmap Resource nj.Var))
    (resource : Resource) (p : Task * Task) : result nj.Constr :=
  let '(task, other_task) := p in
  t ← getitem nj_tasks task;
  u ← getitem nj_tasks other_task;
  rt ← getitem nj_taskresources task;
  st ← getitem rt resource;
  ru ← getitem nj_taskresources other_task;
  su ← getitem ru resource;
  mret (pool_constr t u st su).

(** The body of the loop, for one resource. *)
Definition contention_for
    (nj_tasks : gmap Task nj.Task)
    (nj_taskresources : gmap Task (gmap Resource nj.Var))
    (all_tasks : list Task) (resource : Resource) : result (list nj.Constr) :=
  if decide (capacity resource = 1) then
    ts ← mapM (getitem nj_tasks) (filter (requires resource) all_tasks);
    mret [nj.CUnaryResource ts]
  else
    let tasks_pairs_sharing_resource :=
      filter (both_require resource) (combinations2 all_tasks) in
    mapM (pool_pair nj_tasks nj_taskresources resource)
         tasks_pairs_sharing_resource.

Definition resource_contention
    (nj_tasks : gmap Task nj.Task)
    (nj_taskresources : gmap Task (gmap Resource nj.Var))
    (all_tasks : list Task) (all_resources : list Resource)
    : result (list nj.Constr) :=
  css ← mapM (contention_for nj_tasks nj_taskresources all_tasks)
             all_resources;
  mret (List.concat css).

(** *** Precedence inside and across work units *)

(** [start + d], the end of a task as the code writes it. *)
Definition end_expr (t : nj.Task) (d : Z) : nj.Expr :=
  nj.EAdd (nj.ETask t) (nj.EConst d).

Definition chain_pair (nj_tasks : gmap Task nj.Task) (p : Task * Task)
    : result nj.Constr :=
  let '(task, next_task) := p in
  t ← getitem nj_tasks task;
  n ← getitem nj_tasks next_task;
  mret (nj.CLe (end_expr t (duration task)) (nj.ETask n)).

Definition adjacent_pairs (work_unit : WorkUnit) : list (Task * Task) :=
  zip (tasks work_unit) (drop 1 (tasks work_unit)).

Definition chain_constraints (nj_tasks : gmap Task nj.Task)
    (work_units : list WorkUnit) : result (list nj.Constr) :=
  mapM (chain_pair nj_tasks) (flat_map adjacent_pairs work_units).

Definition custom_constraint (nj_tasks : gmap Task nj.Task)
    (p : WorkUnit * ConstraintBuilder) : result nj.Constr :=
  let '(work_unit, constraint) := p in
  ts ← mapM (getitem nj_tasks) (tasks work_unit);
  mret (constraint ts).

Definition custom_constraints (nj_tasks : gmap Task nj.Task)
    (work_units : list WorkUnit) : result (list nj.Constr) :=
  mapM (custom_constraint nj_tasks)
       (flat_map (λ work_unit, List.map (pair work_unit) (constraints work_unit))
                 work_units).

(** [nj_tasks[wu.tasks[-1]] + wu.tasks[-1].duration] *)
Definition completion_expr (nj_tasks : gmap Task nj.Task)
    (work_unit : WorkUnit) : result nj.Expr :=
  last_task ← last_item (tasks work_unit);
  l ← getitem nj_tasks last_task;
  mret (end_expr l (duration last_task)).

(** [nj_tasks[wu.tasks[0]]] *)
Definition first_task_expr (nj_tasks : gmap Task nj.Task)
    (work_unit : WorkUnit) : result nj.Expr :=
  first_task ← first_item (tasks work_unit);
  f ← getitem nj_tasks first_task;
  mret (nj.ETask f).

Definition dependency_pair (nj_tasks : gmap Task nj.Task)
    (p : WorkUnit * WorkUnit) : result nj.Constr :=
  let '(work_unit, parent_work_unit) := p in
  e ← completion_expr nj_tasks parent_work_unit;
  f ← first_task_expr nj_tasks work_unit;
  mret (nj.CLe e f).

Definition dependency_edges (work_units : list WorkUnit)
    : list (WorkUnit * WorkUnit) :=
  flat_map (λ work_unit, List.map (pair work_unit) (parents work_unit))
           work_units.

Definition dependency_constraints (nj_tasks : gmap Task nj.Task)
    (work_units : list WorkUnit) : result (list nj.Constr) :=
  mapM (dependency_pair nj_tasks) (dependency_edges work_units).

(** *** Fixed starts *)

Definition pinned (work_units : list WorkUnit) : list (WorkUnit * Z) :=
  omap (λ work_unit, pair work_unit <$> scheduled_start work_unit) work_units.

Definition pin_constraint (nj_tasks : gmap Task nj.Task) (p : WorkUnit * Z)
    : result nj.Constr :=
  let '(work_unit, s) := p in
  f ← first_task_expr nj_tasks work_unit;
  mret (nj.CEq f (nj.EConst s)).

Definition pin_constraints (nj_tasks : gmap Task nj.Task)
    (work_units : list WorkUnit) : result (list nj.Constr) :=
  mapM (pin_constraint nj_tasks) (pinned work_units).

(** *** Objective *)

Definition due_dated (work_units : list WorkUnit) : list (WorkUnit * Z) :=
  omap (λ work_unit, pair work_unit <$> due_time work_unit) work_units.

Definition lower_bound : Z := 0.

Definition ZERO : nj.Var := nj.new_Variable_list0 nj.ZeroId.

Definition C_max : nj.Var := nj.new_Variable nj.CmaxId lower_bound 1500000.

Definition tardiness_term (nj_tasks : gmap Task nj.Task) (p : WorkUnit * Z)
    : result nj.Expr :=
  let '(work_unit, due) := p in
  e ← completion_expr nj_tasks work_unit;
  mret (nj.EMul (nj.EMax [nj.EVar ZERO; nj.ESub e (nj.EConst due)])
                (nj.EConst (1000 * priority work_unit))).

Definition deadline_constraint (nj_tasks : gmap Task nj.Task)
    (p : WorkUnit * Z) : result nj.Constr :=
  let '(work_unit, due) := p in
  e ← completion_expr nj_tasks work_unit;
  mret (nj.CLt e (nj.EConst due)).

Definition objective (nj_tasks : gmap Task nj.Task)
    (work_units : list WorkUnit) (optimize : bool) : result (list nj.Item) :=
  if optimize then
    penalties ← mapM (tardiness_term nj_tasks) (due_dated work_units);
    completions ← mapM (completion_expr nj_tasks) work_units;
    mret [nj.Post (nj.CGt (nj.EVar C_max)
                          (nj.EAdd (nj.py_sum penalties) (nj.py_sum completions)));
          nj.Minimize (nj.EVar C_max)]
  else
    cs ← mapM (deadline_constraint nj_tasks) (due_dated work_units);
    mret (nj.Post <$> cs).

(** *** The assembled model *)

Record Built := mkBuilt {
  nj_tasks : gmap Task nj.Task;
  nj_taskresources : gmap Task (gmap Resource nj.Var);
  model : list nj.Item
}.

Definition build_model (work_units : list WorkUnit) (upper_bound : Z)
    (optimize : bool) : result Built :=
  let all_tasks := all_tasks_of work_units in
  let nj_tasks := make_nj_tasks upper_bound all_tasks in
  let nj_taskresources := make_nj_taskresources all_tasks in
  let all_resources := make_all_resources all_tasks in
  contention ← resource_contention nj_tasks nj_taskresources all_tasks
                                   all_resources;
  chain ← chain_constraints nj_tasks work_units;
  custom ← custom_constraints nj_tasks work_units;
  dependencies ← dependency_constraints nj_tasks work_units;
  pins ← pin_constraints nj_tasks work_units;
  goal ← objective nj_tasks work_units optimize;
  mret (mkBuilt nj_tasks nj_taskresources
          ((nj.Post <$> (contention ++ chain ++ custom ++ dependencies ++ pins))
           ++ goal)).

(** ** Solving and writing the schedule back *)

(** [task.scheduled = (start, end, resources)] for one task. *)
Definition schedule_of (b : Built) (a : nj.Valuation) (task : Task)
    : result Scheduled :=
  nj_task ← getitem (nj_tasks b) task;
  let start := nj.get_value a (nj.start_var nj_task) in
  let end_ := start + duration task in
  slots ← mapM (λ resource,
                  rs ← getitem (nj_taskresources b) task;
                  v ← getitem rs resource;
                  mret (resource, nj.get_value a v))
               (resources task);
  mret (start, end_, dict_of fst snd slots).

(** The final loop; an exception leaves the store as the loop left it. *)
Fixpoint materialize (b : Built) (a : nj.Valuation) (all_tasks : list Task)
    (σ : Store) : result unit * Store :=
  match all_tasks with
  | [] => (Ok (), σ)
  | task :: rest =>
      match schedule_of b a task with
      | Raise e => (Raise e, σ)
      | Ok s => materialize b a rest (<[task := s]> σ)
      end
  end.

Definition no_solution : exn :=
  ValueError "No solution found by the schedule optimizer !".

Section Scheduler.

(** The Numberjack engine: [model.load(solver_method)], the time limit and
    [solver.solve()].  [Raise] is a failure of the engine (an unknown
    backend), [Ok None] the answer [False], [Ok (Some a)] a solution; the
    valuation [a] gives for every variable the scheduler created the value
    that [get_value()] returns. *)
Variable engine : string → Z → list nj.Item → result (option nj.Valuation).

Definition numberjack_scheduler (work_units : list WorkUnit)
    (upper_bound : Z) (optimize : bool) (time_limit : Z)
    (solver_method : string) (σ : Store) : result (list WorkUnit) * Store :=
  match build_model work_units upper_bound optimize with
  | Raise e => (Raise e, σ)
  | Ok b =>
      match engine solver_method time_limit (model b) with
      | Raise e => (Raise e, σ)
      | Ok None => (Raise no_solution, σ)
      | Ok (Some a) =>
          match materialize b a (all_tasks_of work_units) σ with
          | (Raise e, σ') => (Raise e, σ')
          | (Ok _, σ') => (Ok work_units, σ')
          end
      end
  end.

End Scheduler.

(** ** Reading a schedule off a valuation *)

Definition start_of (a : nj.Valuation) (task : Task) : Z := a (nj.StartOf task).

Definition end_of (a : nj.Valuation) (task : Task) : Z :=
  start_of a task + duration task.

Definition slot_of (a : nj.Valuation) (task : Task) (resource : Resource) : Z :=
  a (nj.SlotOf task resource).

(** The intervals of two tasks do not overlap: one ends before the other
    starts. *)
Definition disjoint_in_time (a : nj.Valuation) (t u : Task) : Prop :=
  end_of a t <= start_of a u ∨ end_of a u <= start_of a t.

(** End of the last task of a work unit ([0] for one without tasks, which
    the builder refuses wherever it asks for it). *)
Definition completion_time (a : nj.Valuation) (work_unit : WorkUnit) : Z :=
  match last (tasks work_unit) with
  | Some t => end_of a t
  | None => 0
  end.

(** ** The constraints the comprehensions yield once the lookups succeed *)

Definition pool_constr_of (upper_bound : Z) (resource : Resource)
    (p : Task * Task) : nj.Constr :=
  pool_constr (nj_task_of upper_bound p.1) (nj_task_of upper_bound p.2)
              (slot_var p.1 resource) (slot_var p.2 resource).

Definition sharing (resource : Resource) (all_tasks : list Task) : list Task :=
  filter (requires resource) all_tasks.

Definition contention_of (upper_bound : Z) (all_tasks : list Task)
    (resource : Resource) : list nj.Constr :=
  if decide (capacity resource = 1) then
    [nj.CUnaryResource (nj_task_of upper_bound <$> sharing resource all_tasks)]
  else
    pool_constr_of upper_bound resource
      <$> filter (both_require resource) (combinations2 all_tasks).

Definition chain_constr (upper_bound : Z) (p : Task * Task) : nj.Constr :=
  nj.CLe (end_expr (nj_task_of upper_bound p.1) (duration p.1))
         (nj.ETask (nj_task_of upper_bound p.2)).

Definition dependency_constr (upper_bound : Z) (last_task first_task : Task)
    : nj.Constr :=
  nj.CLe (end_expr (nj_task_of upper_bound last_task) (duration last_task))
         (nj.ETask (nj_task_of upper_bound first_task)).

Definition pin_constr (upper_bound : Z) (first_task : Task) (s : Z)
    : nj.Constr :=
  nj.CEq (nj.ETask (nj_task_of upper_bound first_task)) (nj.EConst s).

(** The constraints posted before the objective is composed: contention,
    chains, custom constraints, dependencies and pins, in this order. *)
Definition core_constraints (work_units : list WorkUnit) (upper_bound : Z)
    : result (list nj.Constr) :=
  let all_tasks := all_tasks_of work_units in
  let nj_tasks := make_nj_tasks upper_bound all_tasks in
  contention ← resource_contention nj_tasks (make_nj_taskresources all_tasks)
                                   all_tasks (make_all_resources all_tasks);
  chain ← chain_constraints nj_tasks work_units;
  custom ← custom_constraints nj_tasks work_units;
  dependencies ← dependency_constraints nj_tasks work_units;
  pins ← pin_constraints nj_tasks work_units;
  mret (contention ++ chain ++ custom ++ dependencies ++ pins).

(** A work unit with its due time erased. *)
Definition undated (work_unit : WorkUnit) : WorkUnit :=
  mkWorkUnit (name work_unit) (tasks work_unit) (constraints work_unit)
             (parents work_unit) None (priority work_unit)
             (scheduled_start work_unit).

(** ** The objective in the words of the specification *)

Definition total (zs : list Z) : Z := foldr Z.add 0 zs.

(** Sum over the due-dated work units of
    [1000 * priority * max(0, completion_time - due_time)]. *)
Definition weighted_tardiness (a : nj.Valuation) (work_units : list WorkUnit)
    : Z :=
  total ((λ p : WorkUnit * Z,
            1000 * priority p.1 * Z.max 0 (completion_time a p.1 - p.2))
         <$> due_dated work_units).

(** Sum over all work units of [completion_time]. *)
Definition total_completion (a : nj.Valuation) (work_units : list WorkUnit)
    : Z :=
  total (completion_time a <$> work_units).

(** An engine is sound when the valuations it returns satisfy the model it
    was given. *)
Definition engine_sound
    (engine : string → Z → list nj.Item → result (option nj.Valuation)) : Prop :=
  ∀ solver_method time_limit m a,
    engine solver_method time_limit m = Ok (Some a) → nj.satisfies a m = true.

(** ** A small plant, used to run the definitions

    Work unit [A] runs two tasks, the second starting at most 10 time
    units after the first completes, and is due at time [6]; work unit [B]
    depends on [A] and is pinned at time [5].  All three tasks need the
    exclusive resource [R] and a slot of the pooled resource [P]. *)

Module Example.

Definition R : Resource := mkResource 0 1.
Definition P : Resource := mkResource 1 2.

Definition a1 : Task := mkTask 0 3 [R; P].
Definition a2 : Task := mkTask 1 2 [R; P].
Definition b1 : Task := mkTask 2 4 [R; P].

Definition at_most_10_after : ConstraintBuilder := λ ts,
  match ts with
  | t1 :: t2 :: _ =>
      nj.CLe (nj.ETask t2)
             (nj.EAdd (nj.EAdd (nj.ETask t1) (nj.EConst (nj.duration t1)))
                      (nj.EConst 10))
  | _ => nj.CLe (nj.EConst 0) (nj.EConst 0)
  end.

Definition A : WorkUnit :=
  mkWorkUnit "A" [a1; a2] [at_most_10_after] [] (Some 6) 1 None.
Definition B : WorkUnit := mkWorkUnit "B" [b1] [] [A] None 1 (Some 5).

Definition plant : list WorkUnit := [A; B].

Definition built_of (r : result Built) : Built :=
  match r with
  | Ok b => b
  | Raise _ => mkBuilt ∅ ∅ []
  end.

Definition optimized : Built := built_of (build_model plant 20 true).
Definition feasible : Built := built_of (build_model plant 20 false).

(** [a1] on [0, 3), [a2] on [3, 5), [b1] on [5, 9); [a1] and [b1] on slot 1
    of [P], [a2] on slot 2. *)
Definition val : nj.Valuation := λ v,
  match v with
  | nj.StartOf t => if decide (t = a1) then 0 else if decide (t = a2) then 3 else 5
  | nj.SlotOf t _ => if decide (t = a2) then 2 else 1
  | nj.ZeroId => 0
  | nj.CmaxId => 15
  end.

End Example.

(** The plant with the deadline of [A] moved to [4]: [A] cannot complete
    before time [5]. *)
Module Tight.

Definition A : WorkUnit :=
  mkWorkUnit "A" [Example.a1; Example.a2] [] [] (Some 4) 1 None.
Definition B : WorkUnit := mkWorkUnit "B" [Example.b1] [] [A] None 1 (Some 5).

Definition plant : list WorkUnit := [A; B].

Definition optimized : Built := Example.built_of (build_model plant 20 true).
Definition feasible : Built := Example.built_of (build_model plant 20 false).

Definition core : list nj.Constr :=
  match core_constraints plant 20 with
  | Ok cs => cs
  | Raise _ => []
  end.

(** The schedule of [Example.val], one time unit late on [A]. *)
Definition val : nj.Valuation := λ v,
  match v with
  | nj.CmaxId => 1015
  | _ => Example.val v
  end.

(** An engine that checks one candidate and answers [False] otherwise. *)
Definition checking_engine (candidate : nj.Valuation)
    : string → Z → list nj.Item → result (option nj.Valuation) :=
  λ _ _ m, if nj.satisfies candidate m then Ok (Some candidate) else Ok None.

End Tight.

(** One task of duration [3] under the horizon [5]. *)
Module Short.

Definition t : Task := mkTask 0 3 [].
Definition W : WorkUnit := mkWorkUnit "W" [t] [] [] None 0 None.
Definition built : Built := Example.built_of (build_model [W] 5 true).

End Short.

(** One task of duration [10] pinned at [490] under the default horizon
    [500], due at time [0] with priority [3]; and the same without the due
    time. *)
Module Late.

Definition t : Task := mkTask 0 10 [].
Definition W : WorkUnit := mkWorkUnit "W" [t] [] [] (Some 0) 3 (Some 490).
Definition W_undated : WorkUnit := mkWorkUnit "W" [t] [] [] None 3 (Some 490).

Definition built : Built := Example.built_of (build_model [W] 500 true).
Definition built_undated : Built :=
  Example.built_of (build_model [W_undated] 500 true).

Definition val : nj.Valuation := λ v,
  match v with
  | nj.StartOf _ => 490
  | nj.SlotOf _ _ => 1
  | nj.ZeroId => 0
  | nj.CmaxId => 501
  end.

End Late.

(** ** Further plants *)

(** A work unit without tasks. *)
Module Blank.

Definition W : WorkUnit := mkWorkUnit "blank" [] [] [] None 0 None.

End Blank.

(** Work unit [B] of the example scheduled alone: its parent [A] is not
    passed to the call. *)
Module Orphan.

Definition plant : list WorkUnit := [Example.B].

End Orphan.

(** Two tasks of one work unit on a resource of capacity [0]. *)
Module Broken.

Definition Z0 : Resource := mkResource 5 0.
Definition p1 : Task := mkTask 10 1 [Z0].
Definition p2 : Task := mkTask 11 1 [Z0].
Definition W : WorkUnit := mkWorkUnit "W" [p1; p2] [] [] None 0 None.
Definition built : Built := Example.built_of (build_model [W] 20 false).

End Broken.

(** One task object listed by two work units. *)
Module Shared.

Definition t : Task := mkTask 7 3 [Example.P].
Definition W1 : WorkUnit := mkWorkUnit "W1" [t] [] [] None 0 None.
Definition W2 : WorkUnit := mkWorkUnit "W2" [t] [] [] None 0 None.
Definition built : Built := Example.built_of (build_model [W1; W2] 20 false).

End Shared.

(** ** Counting the model *)

(** What one resource adds to the model. *)
Definition contention_size (all_tasks : list Task) (resource : Resource) : nat :=
  if decide (capacity resource = 1) then 1%nat
  else (length (sharing resource all_tasks)
        * (length (sharing resource all_tasks) - 1) / 2)%nat.

Definition model_size (work_units : list WorkUnit) (optimize : bool) : nat :=
  (sum_list (contention_size (all_tasks_of work_units)
               <$> make_all_resources (all_tasks_of work_units))
   + sum_list ((λ wu, length (tasks wu) - 1) <$> work_units)
   + sum_list ((λ wu, length (constraints wu)) <$> work_units)
   + sum_list ((λ wu, length (parents wu)) <$> work_units)
   + length (pinned work_units)
   + (if optimize then 2 else length (due_dated work_units)))%nat.

(** The example under a horizon of [4], shorter than work unit [A]. *)
Module Oversized.

Definition built : Built := Example.built_of (build_model Example.plant 4 true).

End Oversized.

(** Two work units that wait for each other. *)
Module Cycle.

Definition t1 : Task := mkTask 20 2 [].
Definition t2 : Task := mkTask 21 3 [].
Definition U0 : WorkUnit := mkWorkUnit "U" [t1] [] [] None 0 None.
Definition V : WorkUnit := mkWorkUnit "V" [t2] [] [U0] None 0 None.
Definition U : WorkUnit := mkWorkUnit "U" [t1] [] [V] None 0 None.
Definition built : Built := Example.built_of (build_model [U; V] 20 false).

End Cycle.

(** A work unit with another priority. *)
Definition with_priority (f : WorkUnit → Z) (work_unit : WorkUnit) : WorkUnit :=
  mkWorkUnit (name work_unit) (tasks work_unit) (constraints work_unit)
             (parents work_unit) (due_time work_unit) (f work_unit)
             (scheduled_start work_unit).

(** * Properties *)

(** ** The error monad *)

Lemma bind_Ok {A B} (m : result A) (f : A → result B) (y : B) :
  m ≫= f = Ok y ↔ ∃ x, m = Ok x ∧ f x = Ok y.
Proof.
  destruct m as [x|e]; simpl.
  - split; [intros Hf; by exists x | by intros (x' & [= ->] & Hf)].
  - split; [done | by intros (x' & ? & _)].
Qed.

Lemma mapM_Ok {A B} (f : A → result B) (l : list A) (k : list B) :
  mapM f l = Ok k ↔ Forall2 (λ x y, f x = Ok y) l k.
Proof.
  revert k. induction l as [|x l IH]; intros k; simpl.
  - split; [intros [= <-]; constructor | by inversion 1].
  - rewrite bind_Ok. split.
    + intros (y & Hy & Hk). apply bind_Ok in Hk as (k' & Hk' & [= <-]).
      constructor; [done | by apply IH].
    + inversion 1 as [|? y ? k' Hy Hk']; subst. exists y. split; [done|].
      apply bind_Ok. exists k'. split; [by apply IH | done].
Qed.

Lemma mapM_Ok_fmap {A B} (f : A → result B) (g : A → B) (l : list A) :
  (∀ x, x ∈ l → f x = Ok (g x)) → mapM f l = Ok (g <$> l).
Proof.
  intros Hf. apply mapM_Ok. induction l as [|x l IH]; simpl; constructor.
  - apply Hf. left.
  - apply IH. intros y Hy. apply Hf. by right.
Qed.

Lemma mapM_Ok_inv_fmap {A B} (f : A → result B) (g : A → B) (l : list A)
    (k : list B) :
  (∀ x, x ∈ l → f x = Ok (g x)) → mapM f l = Ok k → k = g <$> l.
Proof.
  intros Hf Hk. rewrite (mapM_Ok_fmap f g l Hf) in Hk. by injection Hk.
Qed.

Lemma mapM_Ok_elem {A B} (f : A → result B) (l : list A) (k : list B) (x : A) :
  mapM f l = Ok k → x ∈ l → ∃ y, f x = Ok y ∧ y ∈ k.
Proof.
  rewrite mapM_Ok. intros HF Hx.
  apply list_elem_of_lookup in Hx as [i Hi].
  destruct (Forall2_lookup_l _ _ _ _ _ HF Hi) as (y & Hy & Hfy).
  exists y. split; [done|]. apply list_elem_of_lookup. by exists i.
Qed.

Lemma mapM_Ok_length {A B} (f : A → result B) (l : list A) (k : list B) :
  mapM f l = Ok k → length k = length l.
Proof. rewrite mapM_Ok. intros HF. symmetry. by eapply Forall2_length. Qed.

(** ** Dictionary comprehensions *)

Lemma lookup_fold_insert {A} `{Countable K} {V} (key : A → K) (val : K → V)
    (l : list A) (d : gmap K V) (k : K) :
  fold_left (λ d x, <[key x := val (key x)]> d) l d !! k
  = if decide (k ∈ key <$> l) then Some (val k) else d !! k.
Proof.
  revert d. induction l as [|x l IH]; intros d.
  - rewrite decide_False; [done | apply not_elem_of_nil].
  - simpl fold_left. rewrite IH, lookup_insert, fmap_cons.
    destruct (decide (k ∈ key <$> l)) as [Hin|Hnin].
    + rewrite decide_True; [done | by right].
    + destruct (decide (key x = k)) as [->|Hne].
      * rewrite decide_True; [done | left].
      * rewrite decide_False; [done|].
        rewrite elem_of_cons. intros [?|?]; congruence.
Qed.

Lemma lookup_dict_of_id `{Countable K} {V} (val : K → V) (l : list K) (k : K) :
  dict_of id val l !! k = if decide (k ∈ l) then Some (val k) else None.
Proof.
  unfold dict_of.
  rewrite (lookup_fold_insert id val l ∅ k), list_fmap_id, lookup_empty.
  done.
Qed.

Lemma getitem_Ok `{Countable K} {V} (d : gmap K V) (k : K) (v : V) :
  getitem d k = Ok v ↔ d !! k = Some v.
Proof. unfold getitem. destruct (d !! k); naive_solver. Qed.

Lemma lookup_make_nj_tasks (ub : Z) (l : list Task) (task : Task) :
  make_nj_tasks ub l !! task
  = if decide (task ∈ l) then Some (nj_task_of ub task) else None.
Proof. apply lookup_dict_of_id. Qed.

Lemma getitem_nj_tasks (ub : Z) (l : list Task) (task : Task) :
  task ∈ l → getitem (make_nj_tasks ub l) task = Ok (nj_task_of ub task).
Proof.
  intros Hin. apply getitem_Ok. rewrite lookup_make_nj_tasks.
  by rewrite decide_True.
Qed.

Lemma getitem_nj_tasks_inv (ub : Z) (l : list Task) (task : Task) (t : nj.Task) :
  getitem (make_nj_tasks ub l) task = Ok t → task ∈ l ∧ t = nj_task_of ub task.
Proof.
  rewrite getitem_Ok, lookup_make_nj_tasks. case_decide; naive_solver.
Qed.

Lemma getitem_nj_taskresources (l : list Task) (task : Task) :
  task ∈ l →
  getitem (make_nj_taskresources l) task
  = Ok (dict_of id (slot_var task) (resources task)).
Proof.
  intros Hin. apply getitem_Ok. unfold make_nj_taskresources.
  rewrite lookup_dict_of_id. by rewrite decide_True.
Qed.

Lemma getitem_slot (task : Task) (resource : Resource) :
  requires resource task →
  getitem (dict_of id (slot_var task) (resources task)) resource
  = Ok (slot_var task resource).
Proof.
  intros Hin. apply getitem_Ok. rewrite lookup_dict_of_id.
  by rewrite decide_True.
Qed.

(** ** Tasks of the work units *)

Lemma elem_of_all_tasks (wus : list WorkUnit) (task : Task) :
  task ∈ all_tasks_of wus ↔ ∃ wu, wu ∈ wus ∧ task ∈ tasks wu.
Proof.
  unfold all_tasks_of. rewrite list_elem_of_In, in_flat_map.
  setoid_rewrite list_elem_of_In. done.
Qed.

Lemma elem_of_flat_map {A B} (f : A → list B) (l : list A) (y : B) :
  y ∈ flat_map f l ↔ ∃ x, x ∈ l ∧ y ∈ f x.
Proof.
  rewrite list_elem_of_In, in_flat_map. setoid_rewrite list_elem_of_In. done.
Qed.

Lemma elem_of_map {A B} (f : A → B) (l : list A) (y : B) :
  y ∈ List.map f l ↔ ∃ x, y = f x ∧ x ∈ l.
Proof. apply (list_elem_of_fmap f). Qed.

Lemma last_elem_of {A} (l : list A) (x : A) : last l = Some x → x ∈ l.
Proof.
  rewrite last_Some. intros [l' ->]. apply elem_of_app. right. left.
Qed.

Lemma head_elem_of {A} (l : list A) (x : A) : head l = Some x → x ∈ l.
Proof. destruct l; [done|]. intros [= ->]. left. Qed.

Lemma elem_of_adjacent_pairs (wu : WorkUnit) (t t' : Task) :
  (t, t') ∈ adjacent_pairs wu
  ↔ ∃ i : nat, tasks wu !! i = Some t ∧ tasks wu !! S i = Some t'.
Proof.
  unfold adjacent_pairs. rewrite list_elem_of_lookup.
  split; intros [i Hi]; exists i.
  - destruct (proj1 (lookup_zip_with_Some _ _ _ _ _) Hi)
      as (x & y & Heq & Hx & Hy).
    injection Heq as -> ->. by rewrite lookup_drop in Hy.
  - destruct Hi as [Ht Ht']. apply lookup_zip_with_Some. exists t, t'.
    rewrite lookup_drop. by repeat split.
Qed.

Lemma adjacent_pairs_tasks (wu : WorkUnit) (t t' : Task) :
  (t, t') ∈ adjacent_pairs wu → t ∈ tasks wu ∧ t' ∈ tasks wu.
Proof.
  rewrite elem_of_adjacent_pairs. intros (i & Hi & Hi').
  split; apply list_elem_of_lookup; eauto.
Qed.

(** ** Satisfaction *)

Lemma satisfies_Post (a : nj.Valuation) (m : list nj.Item) (c : nj.Constr) :
  nj.satisfies a m = true → nj.Post c ∈ m →
  nj.constr_dom a c = true ∧ nj.holds a c = true.
Proof.
  unfold nj.satisfies. rewrite forallb_forall. intros Hall Hin.
  apply list_elem_of_In in Hin. apply Hall in Hin. simpl in Hin.
  by apply andb_true_iff in Hin.
Qed.

(** ** What each part of the builder returns *)

Lemma elem_of_combinations2 {A} (l : list A) (x y : A) :
  (x, y) ∈ combinations2 l → x ∈ l ∧ y ∈ l.
Proof.
  induction l as [|z l IH]; simpl; [by intros ?%elem_of_nil|].
  rewrite elem_of_app, elem_of_map. intros [(y' & [= -> ->] & Hy)|Hxy].
  - split; [left | by right].
  - destruct (IH Hxy). split; by right.
Qed.

Lemma pool_pair_Ok (ub : Z) (l : list Task) (resource : Resource)
    (p : Task * Task) :
  p.1 ∈ l → p.2 ∈ l → both_require resource p →
  pool_pair (make_nj_tasks ub l) (make_nj_taskresources l) resource p
  = Ok (pool_constr_of ub resource p).
Proof.
  destruct p as [t u]. simpl. intros Ht Hu [Hrt Hru]. simpl in *.
  rewrite !getitem_nj_tasks by done. simpl.
  rewrite (getitem_nj_taskresources l t) by done. simpl.
  rewrite getitem_slot by done. simpl.
  rewrite (getitem_nj_taskresources l u) by done. simpl.
  rewrite getitem_slot by done. done.
Qed.

Lemma contention_for_Ok (ub : Z) (l : list Task) (resource : Resource) :
  contention_for (make_nj_tasks ub l) (make_nj_taskresources l) l resource
  = Ok (contention_of ub l resource).
Proof.
  unfold contention_for, contention_of. case_decide.
  - rewrite (mapM_Ok_fmap _ (nj_task_of ub)); [done|].
    intros t [_ Ht]%list_elem_of_filter. by apply getitem_nj_tasks.
  - apply mapM_Ok_fmap. intros [t u] [Hreq Hin]%list_elem_of_filter.
    apply elem_of_combinations2 in Hin as [Ht Hu]. by apply pool_pair_Ok.
Qed.

Lemma resource_contention_Ok (ub : Z) (l : list Task) (rs : list Resource) :
  resource_contention (make_nj_tasks ub l) (make_nj_taskresources l) l rs
  = Ok (List.concat (contention_of ub l <$> rs)).
Proof.
  unfold resource_contention.
  rewrite (mapM_Ok_fmap _ (contention_of ub l)); [done|].
  intros r _. apply contention_for_Ok.
Qed.

Lemma chain_constraints_Ok (ub : Z) (wus : list WorkUnit) :
  chain_constraints (make_nj_tasks ub (all_tasks_of wus)) wus
  = Ok (chain_constr ub <$> flat_map adjacent_pairs wus).
Proof.
  apply mapM_Ok_fmap. intros [t t'] (wu & Hwu & Hp)%elem_of_flat_map.
  apply adjacent_pairs_tasks in Hp as [Ht Ht']. unfold chain_pair.
  rewrite !getitem_nj_tasks by (apply elem_of_all_tasks; eauto). done.
Qed.

Lemma build_model_inv (wus : list WorkUnit) (ub : Z) (opt : bool) (b : Built) :
  build_model wus ub opt = Ok b ↔
  ∃ custom deps pins goal,
    custom_constraints (make_nj_tasks ub (all_tasks_of wus)) wus = Ok custom
    ∧ dependency_constraints (make_nj_tasks ub (all_tasks_of wus)) wus = Ok deps
    ∧ pin_constraints (make_nj_tasks ub (all_tasks_of wus)) wus = Ok pins
    ∧ objective (make_nj_tasks ub (all_tasks_of wus)) wus opt = Ok goal
    ∧ b = mkBuilt (make_nj_tasks ub (all_tasks_of wus))
            (make_nj_taskresources (all_tasks_of wus))
            ((nj.Post <$>
                (List.concat (contention_of ub (all_tasks_of wus)
                                <$> make_all_resources (all_tasks_of wus))
                 ++ (chain_constr ub <$> flat_map adjacent_pairs wus)
                 ++ custom ++ deps ++ pins))
             ++ goal).
Proof.
  unfold build_model.
  rewrite resource_contention_Ok, chain_constraints_Ok. simpl.
  split.
  - intros (custom & Hcu & H)%bind_Ok. apply bind_Ok in H as (deps & Hde & H).
    apply bind_Ok in H as (pins & Hpi & H).
    apply bind_Ok in H as (goal & Hgo & [= <-]).
    by exists custom, deps, pins, goal.
  - intros (custom & deps & pins & goal & -> & -> & -> & -> & ->). done.
Qed.

Lemma completion_expr_Ok (ub : Z) (l : list Task) (wu : WorkUnit) (e : nj.Expr) :
  completion_expr (make_nj_tasks ub l) wu = Ok e ↔
  ∃ t, last (tasks wu) = Some t ∧ t ∈ l
       ∧ e = end_expr (nj_task_of ub t) (duration t).
Proof.
  unfold completion_expr, last_item. destruct (last (tasks wu)) as [t|]; simpl.
  - split.
    + intros (nt & [Hin ->]%getitem_nj_tasks_inv & [= <-])%bind_Ok. eauto.
    + intros (t' & [= <-] & Hin & ->). by rewrite getitem_nj_tasks.
  - split; [done | by intros (t' & ? & _)].
Qed.

Lemma first_task_expr_Ok (ub : Z) (l : list Task) (wu : WorkUnit) (e : nj.Expr) :
  first_task_expr (make_nj_tasks ub l) wu = Ok e ↔
  ∃ t, head (tasks wu) = Some t ∧ t ∈ l ∧ e = nj.ETask (nj_task_of ub t).
Proof.
  unfold first_task_expr, first_item. destruct (head (tasks wu)) as [t|]; simpl.
  - split.
    + intros (nt & [Hin ->]%getitem_nj_tasks_inv & [= <-])%bind_Ok. eauto.
    + intros (t' & [= <-] & Hin & ->). by rewrite getitem_nj_tasks.
  - split; [done | by intros (t' & ? & _)].
Qed.

Lemma dependency_pair_Ok (ub : Z) (l : list Task) (wu parent : WorkUnit)
    (c : nj.Constr) :
  dependency_pair (make_nj_tasks ub l) (wu, parent) = Ok c ↔
  ∃ last_task first_task,
    last (tasks parent) = Some last_task ∧ last_task ∈ l
    ∧ head (tasks wu) = Some first_task ∧ first_task ∈ l
    ∧ c = dependency_constr ub last_task first_task.
Proof.
  unfold dependency_pair. rewrite bind_Ok. split.
  - intros (e & (tl & Hl & Hinl & ->)%completion_expr_Ok & H).
    apply bind_Ok in H as (f & (tf & Hf & Hinf & ->)%first_task_expr_Ok & [= <-]).
    by exists tl, tf.
  - intros (tl & tf & Hl & Hinl & Hf & Hinf & ->).
    exists (end_expr (nj_task_of ub tl) (duration tl)). split.
    + apply completion_expr_Ok. eauto.
    + apply bind_Ok. exists (nj.ETask (nj_task_of ub tf)). split; [|done].
      apply first_task_expr_Ok. eauto.
Qed.

Lemma pin_constraint_Ok (ub : Z) (l : list Task) (wu : WorkUnit) (s : Z)
    (c : nj.Constr) :
  pin_constraint (make_nj_tasks ub l) (wu, s) = Ok c ↔
  ∃ first_task, head (tasks wu) = Some first_task ∧ first_task ∈ l
                ∧ c = pin_constr ub first_task s.
Proof.
  unfold pin_constraint. rewrite bind_Ok. split.
  - intros (f & (tf & Hf & Hinf & ->)%first_task_expr_Ok & [= <-]). eauto.
  - intros (tf & Hf & Hinf & ->). exists (nj.ETask (nj_task_of ub tf)).
    split; [|done]. apply first_task_expr_Ok. eauto.
Qed.

Lemma elem_of_dependency_edges (wus : list WorkUnit) (wu parent : WorkUnit) :
  (wu, parent) ∈ dependency_edges wus ↔ wu ∈ wus ∧ parent ∈ parents wu.
Proof.
  unfold dependency_edges. rewrite elem_of_flat_map. split.
  - intros (x & Hx & (y & [= -> ->] & Hy)%elem_of_map). done.
  - intros [Hwu Hp]. exists wu. split; [done|]. apply elem_of_map. eauto.
Qed.

Lemma elem_of_pinned (wus : list WorkUnit) (wu : WorkUnit) (s : Z) :
  (wu, s) ∈ pinned wus ↔ wu ∈ wus ∧ scheduled_start wu = Some s.
Proof.
  unfold pinned. rewrite list_elem_of_omap. split.
  - intros (x & Hx & Hs). destruct (scheduled_start x) eqn:E; [|done].
    simpl in Hs. injection Hs as <- <-. done.
  - intros [Hwu Hs]. exists wu. by rewrite Hs.
Qed.

Lemma elem_of_due_dated (wus : list WorkUnit) (wu : WorkUnit) (d : Z) :
  (wu, d) ∈ due_dated wus ↔ wu ∈ wus ∧ due_time wu = Some d.
Proof.
  unfold due_dated. rewrite list_elem_of_omap. split.
  - intros (x & Hx & Hs). destruct (due_time x) eqn:E; [|done].
    simpl in Hs. injection Hs as <- <-. done.
  - intros [Hwu Hs]. exists wu. by rewrite Hs.
Qed.

(** Membership of the five lists of posted constraints in the model. *)
Lemma elem_of_model (wus : list WorkUnit) (ub : Z) (opt : bool) (b : Built)
    (c : nj.Constr) :
  build_model wus ub opt = Ok b →
  (∃ r, r ∈ make_all_resources (all_tasks_of wus)
        ∧ c ∈ contention_of ub (all_tasks_of wus) r)
  ∨ c ∈ chain_constr ub <$> flat_map adjacent_pairs wus
  ∨ (∃ cs, custom_constraints (nj_tasks b) wus = Ok cs ∧ c ∈ cs)
  ∨ (∃ cs, dependency_constraints (nj_tasks b) wus = Ok cs ∧ c ∈ cs)
  ∨ (∃ cs, pin_constraints (nj_tasks b) wus = Ok cs ∧ c ∈ cs) →
  nj.Post c ∈ model b.
Proof.
  intros (custom & deps & pins & goal & Hcu & Hde & Hpi & Hgo & ->)%build_model_inv.
  simpl. rewrite Hcu, Hde, Hpi. intros Hc.
  apply elem_of_app. left. apply list_elem_of_fmap_2.
  rewrite !elem_of_app.
  destruct Hc as [(r & Hr & Hc)|[Hc|[(cs & [= <-] & Hc)|[(cs & [= <-] & Hc)|(cs & [= <-] & Hc)]]]];
    [left | tauto..].
  apply list_elem_of_In, in_concat. exists (contention_of ub (all_tasks_of wus) r).
  split; apply list_elem_of_In; [by apply list_elem_of_fmap_2 | done].
Qed.

(** ** Precedence inside a work unit *)

Example example_optimized :
  build_model Example.plant 20 true = Ok Example.optimized.
Proof. vm_compute. reflexivity. Qed.

Example example_feasible :
  build_model Example.plant 20 false = Ok Example.feasible.
Proof. vm_compute. reflexivity. Qed.

Example example_val_optimized :
  nj.satisfies Example.val (model Example.optimized) = true.
Proof. vm_compute. reflexivity. Qed.

Example example_val_feasible :
  nj.satisfies Example.val (model Example.feasible) = true.
Proof. vm_compute. reflexivity. Qed.

(** C6: for every work unit and every adjacent pair of its task sequence the
    built model contains [start(task_i) + duration(task_i) <= start(task_i+1)],
    and every valuation that satisfies the model obeys it. *)
Theorem chain_precedence (wus : list WorkUnit) (ub : Z) (opt : bool)
    (b : Built) (wu : WorkUnit) (i : nat) (t t' : Task) :
  build_model wus ub opt = Ok b →
  wu ∈ wus →
  tasks wu !! i = Some t →
  tasks wu !! S i = Some t' →
  nj_tasks b !! t = Some (nj_task_of ub t)
  ∧ nj_tasks b !! t' = Some (nj_task_of ub t')
  ∧ nj.Post (nj.CLe (nj.EAdd (nj.ETask (nj_task_of ub t))
                             (nj.EConst (duration t)))
                    (nj.ETask (nj_task_of ub t'))) ∈ model b
  ∧ ∀ a, nj.satisfies a (model b) = true →
         start_of a t + duration t <= start_of a t'.
Proof.
  intros Hb Hwu Ht Ht'.
  assert (Hp : (t, t') ∈ adjacent_pairs wu)
    by (apply elem_of_adjacent_pairs; eauto).
  assert (Hin : nj.Post (chain_constr ub (t, t')) ∈ model b).
  { apply (elem_of_model wus ub opt b _ Hb). right; left.
    apply list_elem_of_fmap_2, elem_of_flat_map. eauto. }
  pose proof (adjacent_pairs_tasks _ _ _ Hp) as [Hint Hint'].
  apply build_model_inv in Hb as Hinv.
  destruct Hinv as (? & ? & ? & ? & _ & _ & _ & _ & Hbeq).
  repeat split.
  - rewrite Hbeq. simpl. rewrite lookup_make_nj_tasks, decide_True; [done|].
    apply elem_of_all_tasks; eauto.
  - rewrite Hbeq. simpl. rewrite lookup_make_nj_tasks, decide_True; [done|].
    apply elem_of_all_tasks; eauto.
  - exact Hin.
  - intros a Ha. destruct (satisfies_Post a _ _ Ha Hin) as [_ Hh].
    simpl in Hh. by apply Z.leb_le in Hh.
Qed.

Lemma chain_precedence_witness :
  build_model Example.plant 20 true = Ok Example.optimized
  ∧ nj.satisfies Example.val (model Example.optimized) = true
  ∧ start_of Example.val Example.a1 + duration Example.a1
    <= start_of Example.val Example.a2.
Proof.
  assert (Hb : build_model Example.plant 20 true = Ok Example.optimized)
    by (vm_compute; reflexivity).
  assert (Ha : nj.satisfies Example.val (model Example.optimized) = true)
    by (vm_compute; reflexivity).
  split; [exact Hb|]. split; [exact Ha|].
  refine (proj2 (proj2 (proj2
    (chain_precedence Example.plant 20 true Example.optimized Example.A 0
       Example.a1 Example.a2 Hb _ eq_refl eq_refl))) Example.val Ha).
  left.
Defined.

(** ** Precedence across work units *)

(** C7: for every work unit of the call and every parent of it the built
    model contains [start(last task of parent) + its duration <= start(first
    task of child)], one constraint per (child, parent) edge; a valuation that
    satisfies the model obeys all of them at once. *)
Theorem dependency_precedence (wus : list WorkUnit) (ub : Z) (opt : bool)
    (b : Built) :
  build_model wus ub opt = Ok b →
  ∃ deps,
    dependency_constraints (nj_tasks b) wus = Ok deps
    ∧ Forall2
        (λ edge c, ∃ last_task first_task,
           last (tasks edge.2) = Some last_task
           ∧ head (tasks edge.1) = Some first_task
           ∧ c = nj.CLe (nj.EAdd (nj.ETask (nj_task_of ub last_task))
                                 (nj.EConst (duration last_task)))
                        (nj.ETask (nj_task_of ub first_task)))
        (dependency_edges wus) deps
    ∧ (∀ child parent, (child, parent) ∈ dependency_edges wus
                       ↔ child ∈ wus ∧ parent ∈ parents child)
    ∧ (∀ c, c ∈ deps → nj.Post c ∈ model b)
    ∧ ∀ a, nj.satisfies a (model b) = true →
        ∀ child parent, child ∈ wus → parent ∈ parents child →
          ∃ last_task first_task,
            last (tasks parent) = Some last_task
            ∧ head (tasks child) = Some first_task
            ∧ start_of a last_task + duration last_task
              <= start_of a first_task.
Proof.
  intros Hb. apply build_model_inv in Hb as Hinv.
  destruct Hinv as (custom & deps & pins & goal & Hcu & Hde & Hpi & Hgo & Hbeq).
  assert (Hnj : nj_tasks b = make_nj_tasks ub (all_tasks_of wus)) by by subst b.
  exists deps. rewrite Hnj.
  assert (Hposted : ∀ c, c ∈ deps → nj.Post c ∈ model b).
  { intros c Hc. apply (elem_of_model wus ub opt b c Hb).
    do 3 right. left. exists deps. by rewrite Hnj. }
  pose proof Hde as HF. unfold dependency_constraints in HF.
  apply mapM_Ok in HF.
  split; [done|]. split; [|split; [|split; [done|]]].
  - eapply Forall2_impl; [exact HF|]. intros [wu p] c Hc.
    apply dependency_pair_Ok in Hc as (tl & tf & Hl & _ & Hf & _ & ->).
    by exists tl, tf.
  - apply elem_of_dependency_edges.
  - intros a Ha wu p Hwu Hp.
    assert (He : (wu, p) ∈ dependency_edges wus)
      by by apply elem_of_dependency_edges.
    apply list_elem_of_lookup in He as [i Hi].
    destruct (Forall2_lookup_l _ _ _ _ _ HF Hi) as (c & Hci & Hc).
    apply dependency_pair_Ok in Hc as (tl & tf & Hl & _ & Hf & _ & ->).
    exists tl, tf. split; [done|]. split; [done|].
    assert (Hin : dependency_constr ub tl tf ∈ deps)
      by (apply list_elem_of_lookup; eauto).
    destruct (satisfies_Post a _ _ Ha (Hposted _ Hin)) as [_ Hh].
    simpl in Hh. by apply Z.leb_le in Hh.
Qed.

Lemma dependency_precedence_witness :
  build_model Example.plant 20 true = Ok Example.optimized
  ∧ nj.satisfies Example.val (model Example.optimized) = true
  ∧ ∃ last_task first_task,
      last (tasks Example.A) = Some last_task
      ∧ head (tasks Example.B) = Some first_task
      ∧ start_of Example.val last_task + duration last_task
        <= start_of Example.val first_task.
Proof.
  assert (Hb : build_model Example.plant 20 true = Ok Example.optimized)
    by (vm_compute; reflexivity).
  assert (Ha : nj.satisfies Example.val (model Example.optimized) = true)
    by (vm_compute; reflexivity).
  split; [exact Hb|]. split; [exact Ha|].
  destruct (dependency_precedence Example.plant 20 true Example.optimized Hb)
    as (deps & _ & _ & _ & _ & Hsem).
  apply (Hsem Example.val Ha Example.B Example.A).
  - right. left.
  - left.
Defined.

(** ** Fixed starts *)

Lemma length_omap_filter {A B} (f : A → option B) (l : list A) :
  length (omap f l) = length (filter (λ x, is_Some (f x)) l).
Proof.
  induction l as [|x l IH]; [done|]. rewrite filter_cons.
  change (omap f (x :: l))
    with (match f x with Some y => y :: omap f l | None => omap f l end).
  destruct (f x) as [y|] eqn:E.
  - rewrite decide_True by eauto. simpl. by rewrite IH.
  - rewrite decide_False; [done|]. by intros [? ?].
Qed.

(** C8: for every work unit whose [scheduled_start] is set the built model
    contains the equality of the start of its first task with that value, so
    every valuation that satisfies the model starts the first task exactly
    there; the equalities are posted for those work units and no others. *)
Theorem fixed_start_pin (wus : list WorkUnit) (ub : Z) (opt : bool) (b : Built) :
  build_model wus ub opt = Ok b →
  ∃ pins,
    pin_constraints (nj_tasks b) wus = Ok pins
    ∧ Forall2
        (λ p c, ∃ first_task,
           head (tasks p.1) = Some first_task
           ∧ c = nj.CEq (nj.ETask (nj_task_of ub first_task)) (nj.EConst p.2))
        (pinned wus) pins
    ∧ (∀ wu s, (wu, s) ∈ pinned wus ↔ wu ∈ wus ∧ scheduled_start wu = Some s)
    ∧ length pins
      = length (filter (λ wu, is_Some (scheduled_start wu)) wus)
    ∧ (∀ c, c ∈ pins → nj.Post c ∈ model b)
    ∧ ∀ a, nj.satisfies a (model b) = true →
        ∀ wu s, wu ∈ wus → scheduled_start wu = Some s →
          ∃ first_task,
            head (tasks wu) = Some first_task ∧ start_of a first_task = s.
Proof.
  intros Hb. apply build_model_inv in Hb as Hinv.
  destruct Hinv as (custom & deps & pins & goal & Hcu & Hde & Hpi & Hgo & Hbeq).
  assert (Hnj : nj_tasks b = make_nj_tasks ub (all_tasks_of wus)) by by subst b.
  exists pins. rewrite Hnj.
  assert (Hposted : ∀ c, c ∈ pins → nj.Post c ∈ model b).
  { intros c Hc. apply (elem_of_model wus ub opt b c Hb).
    do 4 right. exists pins. by rewrite Hnj. }
  pose proof Hpi as HF. unfold pin_constraints in HF. apply mapM_Ok in HF.
  split; [done|]. split; [|split; [|split; [|split; [done|]]]].
  - eapply Forall2_impl; [exact HF|]. intros [wu s] c Hc.
    apply pin_constraint_Ok in Hc as (tf & Hf & _ & ->). by exists tf.
  - apply elem_of_pinned.
  - rewrite <- (Forall2_length _ _ _ HF). unfold pinned.
    rewrite length_omap_filter. f_equal. apply list_filter_iff.
    intros wu. by rewrite fmap_is_Some.
  - intros a Ha wu s Hwu Hs.
    assert (He : (wu, s) ∈ pinned wus) by by apply elem_of_pinned.
    apply list_elem_of_lookup in He as [i Hi].
    destruct (Forall2_lookup_l _ _ _ _ _ HF Hi) as (c & Hci & Hc).
    apply pin_constraint_Ok in Hc as (tf & Hf & _ & ->).
    exists tf. split; [done|].
    assert (Hin : pin_constr ub tf s ∈ pins)
      by (apply list_elem_of_lookup; eauto).
    destruct (satisfies_Post a _ _ Ha (Hposted _ Hin)) as [_ Hh].
    simpl in Hh. by apply Z.eqb_eq in Hh.
Qed.

Lemma fixed_start_pin_witness :
  build_model Example.plant 20 true = Ok Example.optimized
  ∧ nj.satisfies Example.val (model Example.optimized) = true
  ∧ ∃ first_task,
      head (tasks Example.B) = Some first_task
      ∧ start_of Example.val first_task = 5.
Proof.
  assert (Hb : build_model Example.plant 20 true = Ok Example.optimized)
    by (vm_compute; reflexivity).
  assert (Ha : nj.satisfies Example.val (model Example.optimized) = true)
    by (vm_compute; reflexivity).
  split; [exact Hb|]. split; [exact Ha|].
  destruct (fixed_start_pin Example.plant 20 true Example.optimized Hb)
    as (pins & _ & _ & _ & _ & _ & Hsem).
  apply (Hsem Example.val Ha Example.B 5).
  - right. left.
  - reflexivity.
Defined.

(** ** Pairs of tasks *)

Section combinations.
Context {A : Type}.
Implicit Types (l : list A) (x y : A).

Lemma combinations2_cons x l :
  combinations2 (x :: l) = (pair x <$> l) ++ combinations2 l.
Proof. done. Qed.

Lemma elem_of_combinations2_ne l x y :
  x ∈ l → y ∈ l → x ≠ y →
  (x, y) ∈ combinations2 l ∨ (y, x) ∈ combinations2 l.
Proof.
  induction l as [|z l IH]; [by intros ?%elem_of_nil|].
  rewrite combinations2_cons, !elem_of_cons, !elem_of_app.
  intros [->|Hx] [->|Hy] Hne; [done|..].
  - left; left. by apply list_elem_of_fmap_2.
  - right; left. by apply list_elem_of_fmap_2.
  - destruct (IH Hx Hy Hne); [left | right]; by right.
Qed.

Lemma NoDup_combinations2 l : NoDup l → NoDup (combinations2 l).
Proof.
  induction 1 as [|z l Hz Hl IH]; [constructor|].
  rewrite combinations2_cons. apply NoDup_app. split; [|split; [|done]].
  - apply (NoDup_fmap_2 _). done.
  - intros [x y] (y' & [= -> ->] & Hy)%list_elem_of_fmap Hin.
    by apply elem_of_combinations2 in Hin as [? _].
Qed.

Lemma combinations2_asym l x y :
  NoDup l → (x, y) ∈ combinations2 l → (y, x) ∉ combinations2 l.
Proof.
  induction 1 as [|z l Hz Hl IH]; [by intros ?%elem_of_nil|].
  rewrite combinations2_cons, !elem_of_app, !list_elem_of_fmap.
  intros [(y' & [= -> ->] & Hy)|Hxy] [(x' & [= -> ->] & Hx)|Hyx]; [done|..].
  - by apply elem_of_combinations2 in Hyx as [_ ?].
  - by apply elem_of_combinations2 in Hxy as [_ ?].
  - by apply IH.
Qed.

Lemma length_combinations2_double l :
  (2 * length (combinations2 l) = length l * (length l - 1))%nat.
Proof.
  induction l as [|z l IH]; [done|].
  rewrite combinations2_cons, length_app, length_fmap. simpl length.
  nia.
Qed.

Lemma length_combinations2 l :
  length (combinations2 l) = (length l * (length l - 1) / 2)%nat.
Proof.
  rewrite <- length_combinations2_double, Nat.mul_comm.
  symmetry. by apply Nat.div_mul.
Qed.

Lemma filter_combinations2 (P : A → Prop) `{∀ x, Decision (P x)} l :
  filter (λ p, P p.1 ∧ P p.2) (combinations2 l) = combinations2 (filter P l).
Proof.
  induction l as [|z l IH]; [done|].
  rewrite combinations2_cons, filter_app, IH, filter_cons.
  destruct (decide (P z)) as [Hz|Hz].
  - rewrite combinations2_cons. f_equal.
    clear IH. induction l as [|y l IH]; [done|].
    rewrite fmap_cons, !filter_cons. simpl.
    destruct (decide (P y)).
    + rewrite decide_True by done. by rewrite fmap_cons, IH.
    + rewrite decide_False by tauto. done.
  - rewrite <- (app_nil_l (combinations2 (filter P l))) at 2. f_equal.
    clear IH. induction l as [|y l IH]; [done|].
    rewrite fmap_cons, filter_cons. simpl. rewrite decide_False by tauto. done.
Qed.

(** In a list without repetition, one position of [combinations2] holds the
    unordered pair of two different members. *)
Lemma combinations2_unique l x y :
  NoDup l → x ∈ l → y ∈ l → x ≠ y →
  ∃ i : nat,
    (combinations2 l !! i = Some (x, y) ∨ combinations2 l !! i = Some (y, x))
    ∧ ∀ j : nat,
        combinations2 l !! j = Some (x, y) ∨ combinations2 l !! j = Some (y, x) →
        j = i.
Proof.
  intros Hl Hx Hy Hne.
  pose proof (NoDup_combinations2 l Hl) as Hnd.
  destruct (elem_of_combinations2_ne l x y Hx Hy Hne) as [Hin|Hin].
  - pose proof (combinations2_asym l x y Hl Hin) as Hnot.
    apply list_elem_of_lookup in Hin as [i Hi]. exists i. split; [by left|].
    intros j [Hj|Hj].
    + by eapply NoDup_lookup.
    + destruct Hnot. apply list_elem_of_lookup. eauto.
  - pose proof (combinations2_asym l y x Hl Hin) as Hnot.
    apply list_elem_of_lookup in Hin as [i Hi]. exists i. split; [by right|].
    intros j [Hj|Hj].
    + destruct Hnot. apply list_elem_of_lookup. eauto.
    + by eapply NoDup_lookup.
Qed.

Lemma pairwise_fmap {B} (f : A → B) (R : B → B → bool) l :
  nj.pairwise R (f <$> l) = nj.pairwise (λ x y, R (f x) (f y)) l.
Proof.
  induction l as [|x l IH]; [done|]. rewrite fmap_cons. simpl. rewrite IH.
  f_equal. clear IH. induction l as [|y l IH]; [done|].
  rewrite fmap_cons. simpl. by rewrite IH.
Qed.

Lemma pairwise_combinations2 (R : A → A → bool) l :
  nj.pairwise R l = true ↔ ∀ x y, (x, y) ∈ combinations2 l → R x y = true.
Proof.
  induction l as [|z l IH]; simpl.
  - split; [by intros _ x y ?%elem_of_nil | done].
  - rewrite andb_true_iff, IH, forallb_forall. split.
    + intros [Hz Hl] x y. rewrite elem_of_app, elem_of_map.
      intros [(y' & [= -> ->] & Hy)|Hxy]; [|by apply Hl].
      by apply Hz, list_elem_of_In.
    + intros Hall. split.
      * intros y Hy%list_elem_of_In. apply Hall, elem_of_app. left.
        apply elem_of_map. eauto.
      * intros x y Hxy. apply Hall, elem_of_app. by right.
Qed.

End combinations.

(** ** Resource contention *)

Lemma elem_of_all_resources (l : list Task) (resource : Resource) :
  resource ∈ make_all_resources l ↔ ∃ task, task ∈ l ∧ requires resource task.
Proof.
  unfold make_all_resources. by rewrite elem_of_remove_dups, elem_of_flat_map.
Qed.

Lemma apart_disjoint (a : nj.Valuation) (ub : Z) (t u : Task) :
  nj.apart a (nj_task_of ub t) (nj_task_of ub u) = true ↔ disjoint_in_time a t u.
Proof.
  unfold nj.apart, disjoint_in_time, end_of, start_of. simpl.
  unfold nj.get_value. simpl. rewrite orb_true_iff, !Z.leb_le. done.
Qed.

Lemma disjoint_in_time_sym (a : nj.Valuation) (t u : Task) :
  disjoint_in_time a t u → disjoint_in_time a u t.
Proof. unfold disjoint_in_time. tauto. Qed.

(** C2: for a resource of capacity 1 the loop posts one [UnaryResource]
    constraint over all the tasks that require the resource, and a valuation
    that satisfies the model keeps the intervals [start, start + duration) of
    any two of these tasks apart. *)
Theorem exclusive_resource (wus : list WorkUnit) (ub : Z) (opt : bool)
    (b : Built) (resource : Resource) :
  build_model wus ub opt = Ok b →
  resource ∈ make_all_resources (all_tasks_of wus) →
  capacity resource = 1 →
  contention_for (nj_tasks b) (nj_taskresources b) (all_tasks_of wus) resource
  = Ok [nj.CUnaryResource
          (nj_task_of ub <$> filter (requires resource) (all_tasks_of wus))]
  ∧ nj.Post (nj.CUnaryResource
               (nj_task_of ub <$> filter (requires resource) (all_tasks_of wus)))
    ∈ model b
  ∧ ∀ a, nj.satisfies a (model b) = true →
      ∀ t u, t ∈ all_tasks_of wus → u ∈ all_tasks_of wus →
             requires resource t → requires resource u → t ≠ u →
             start_of a t + duration t <= start_of a u
             ∨ start_of a u + duration u <= start_of a t.
Proof.
  intros Hb Hr Hcap.
  assert (Hc : contention_of ub (all_tasks_of wus) resource
               = [nj.CUnaryResource
                    (nj_task_of ub <$> filter (requires resource) (all_tasks_of wus))]).
  { unfold contention_of. by rewrite decide_True. }
  assert (Hin : nj.Post (nj.CUnaryResource
             (nj_task_of ub <$> filter (requires resource) (all_tasks_of wus)))
           ∈ model b).
  { apply (elem_of_model wus ub opt b _ Hb). left. exists resource.
    split; [done|]. rewrite Hc. left. }
  apply build_model_inv in Hb as Hinv.
  destruct Hinv as (? & ? & ? & ? & _ & _ & _ & _ & Hbeq).
  split; [|split; [done|]].
  - rewrite Hbeq. simpl. by rewrite contention_for_Ok, Hc.
  - intros a Ha t u Ht Hu Hrt Hru Hne.
    destruct (satisfies_Post a _ _ Ha Hin) as [_ Hh]. simpl in Hh.
    rewrite pairwise_fmap in Hh.
    pose proof (proj1 (pairwise_combinations2 _ _) Hh) as Hall.
    destruct (elem_of_combinations2_ne
                (filter (requires resource) (all_tasks_of wus)) t u)
      as [Hp|Hp]; [by apply list_elem_of_filter..|done| |].
    + apply Hall in Hp. by apply apart_disjoint in Hp.
    + apply Hall in Hp. apply apart_disjoint in Hp.
      by apply disjoint_in_time_sym.
Qed.

Lemma exclusive_resource_witness :
  build_model Example.plant 20 true = Ok Example.optimized
  ∧ nj.satisfies Example.val (model Example.optimized) = true
  ∧ (start_of Example.val Example.a2 + duration Example.a2
     <= start_of Example.val Example.b1
     ∨ start_of Example.val Example.b1 + duration Example.b1
       <= start_of Example.val Example.a2).
Proof.
  assert (Hb : build_model Example.plant 20 true = Ok Example.optimized)
    by (vm_compute; reflexivity).
  assert (Ha : nj.satisfies Example.val (model Example.optimized) = true)
    by (vm_compute; reflexivity).
  split; [exact Hb|]. split; [exact Ha|].
  refine (proj2 (proj2
    (exclusive_resource Example.plant 20 true Example.optimized Example.R
       Hb _ eq_refl)) Example.val Ha Example.a2 Example.b1 _ _ _ _ _).
  - vm_compute. left.
  - vm_compute. right. left.
  - vm_compute. right. right. left.
  - left.
  - left.
  - discriminate.
Defined.

Lemma pool_constr_of_inj (ub : Z) (resource : Resource) (p q : Task * Task) :
  pool_constr_of ub resource p = pool_constr_of ub resource q → p = q.
Proof.
  destruct p as [t u], q as [t' u']. unfold pool_constr_of, pool_constr.
  simpl. intros H. injection H as _ _ _ _ _ _ H1 _ H2 _.
  unfold slot_var, nj.new_Variable in H1, H2. congruence.
Qed.

Lemma lookup_pool_constr_of (ub : Z) (resource : Resource)
    (ps : list (Task * Task)) (i : nat) (p : Task * Task) :
  (pool_constr_of ub resource <$> ps) !! i = Some (pool_constr_of ub resource p)
  ↔ ps !! i = Some p.
Proof.
  rewrite list_lookup_fmap. destruct (ps !! i) as [q|]; simpl; [|done].
  split; [|by intros [= ->]].
  intros H.
  assert (He : pool_constr_of ub resource q = pool_constr_of ub resource p)
    by congruence.
  f_equal. by eapply pool_constr_of_inj.
Qed.

Lemma pool_constr_sound (a : nj.Valuation) (ub : Z) (resource : Resource)
    (t u : Task) :
  nj.constr_dom a (pool_constr_of ub resource (t, u)) = true →
  nj.holds a (pool_constr_of ub resource (t, u)) = true →
  (disjoint_in_time a t u ∨ slot_of a t resource ≠ slot_of a u resource)
  ∧ 1 <= slot_of a t resource <= capacity resource
  ∧ 1 <= slot_of a u resource <= capacity resource.
Proof.
  unfold pool_constr_of, pool_constr, disjoint_in_time, end_of, start_of, slot_of.
  simpl. unfold nj.in_domain, nj.get_value. simpl.
  rewrite !andb_true_iff, !orb_true_iff, !andb_true_iff, negb_true_iff,
    !Z.leb_le, Z.eqb_neq.
  intros (_ & (? & ?) & (? & ?) & _) [[?|?]|((? & _) & _)];
    repeat split; auto.
Qed.

(** C1: for a resource of capacity above 1 the loop posts, for each pair of
    positions of the tasks requiring it, the disjunction "one task ends
    before the other starts, or the two slot variables differ": [n(n-1)/2]
    constraints for [n] tasks, exactly one per unordered pair of distinct
    tasks when no task is listed twice.  A valuation that satisfies the
    model keeps any two such tasks apart in time or on different slots, and
    their slots within [1, capacity]. *)
Theorem pooled_resource (wus : list WorkUnit) (ub : Z) (opt : bool)
    (b : Built) (resource : Resource) :
  build_model wus ub opt = Ok b →
  1 < capacity resource →
  ∃ cs,
    contention_for (nj_tasks b) (nj_taskresources b) (all_tasks_of wus) resource
    = Ok cs
    ∧ cs = pool_constr_of ub resource
             <$> combinations2 (sharing resource (all_tasks_of wus))
    ∧ length cs
      = (length (sharing resource (all_tasks_of wus))
         * (length (sharing resource (all_tasks_of wus)) - 1) / 2)%nat
    ∧ (∀ c, c ∈ cs → nj.Post c ∈ model b)
    ∧ (∀ t, t ∈ sharing resource (all_tasks_of wus) →
         ∃ rs, nj_taskresources b !! t = Some rs
               ∧ rs !! resource
                 = Some (nj.mkVariable (nj.SlotOf t resource) 1
                                       (capacity resource)))
    ∧ (NoDup (all_tasks_of wus) →
       ∀ t u, t ∈ sharing resource (all_tasks_of wus) →
              u ∈ sharing resource (all_tasks_of wus) → t ≠ u →
         ∃ i : nat,
           (cs !! i = Some (pool_constr_of ub resource (t, u))
            ∨ cs !! i = Some (pool_constr_of ub resource (u, t)))
           ∧ ∀ j : nat,
               cs !! j = Some (pool_constr_of ub resource (t, u))
               ∨ cs !! j = Some (pool_constr_of ub resource (u, t)) →
               j = i)
    ∧ ∀ a, nj.satisfies a (model b) = true →
        ∀ t u, t ∈ sharing resource (all_tasks_of wus) →
               u ∈ sharing resource (all_tasks_of wus) → t ≠ u →
          (start_of a t + duration t <= start_of a u
           ∨ start_of a u + duration u <= start_of a t
           ∨ slot_of a t resource ≠ slot_of a u resource)
          ∧ 1 <= slot_of a t resource <= capacity resource
          ∧ 1 <= slot_of a u resource <= capacity resource.
Proof.
  intros Hb Hcap. set (l := all_tasks_of wus).
  set (cs := pool_constr_of ub resource <$> combinations2 (sharing resource l)).
  assert (Hc : contention_of ub l resource = cs).
  { unfold contention_of. rewrite decide_False by lia.
    unfold cs, sharing. f_equal. apply (filter_combinations2 (requires resource)). }
  assert (Hposted : ∀ c, c ∈ cs → nj.Post c ∈ model b).
  { intros c Hin. apply (elem_of_model wus ub opt b _ Hb). left.
    exists resource. fold l. rewrite Hc. split; [|done].
    apply list_elem_of_fmap in Hin as ([t u] & _ & Hp).
    apply elem_of_combinations2 in Hp as [[Hreq Ht]%list_elem_of_filter _].
    apply elem_of_all_resources. eauto. }
  apply build_model_inv in Hb as Hinv.
  destruct Hinv as (? & ? & ? & ? & _ & _ & _ & _ & Hbeq).
  exists cs. split; [|split; [done|split; [|split; [done|split; [|split]]]]].
  - rewrite Hbeq. simpl. fold l. by rewrite contention_for_Ok, Hc.
  - unfold cs. by rewrite length_fmap, length_combinations2.
  - intros t [Hreq Ht]%list_elem_of_filter. rewrite Hbeq. simpl. fold l.
    exists (dict_of id (slot_var t) (resources t)). split.
    + by apply getitem_Ok, getitem_nj_taskresources.
    + by apply getitem_Ok, getitem_slot.
  - intros Hnd t u Ht Hu Hne.
    destruct (combinations2_unique (sharing resource l) t u) as (i & Hi & Huniq);
      [by apply NoDup_filter|done..|].
    exists i. unfold cs. rewrite !lookup_pool_constr_of. split; [done|].
    intros j. rewrite !lookup_pool_constr_of. apply Huniq.
  - intros a Ha t u Ht Hu Hne.
    destruct (elem_of_combinations2_ne (sharing resource l) t u Ht Hu Hne)
      as [Hp|Hp].
    + assert (Hin : pool_constr_of ub resource (t, u) ∈ cs)
        by by apply list_elem_of_fmap_2.
      destruct (satisfies_Post a _ _ Ha (Hposted _ Hin)) as [Hd Hh].
      destruct (pool_constr_sound a ub resource t u Hd Hh) as (Hor & ? & ?).
      unfold disjoint_in_time, end_of in Hor. tauto.
    + assert (Hin : pool_constr_of ub resource (u, t) ∈ cs)
        by by apply list_elem_of_fmap_2.
      destruct (satisfies_Post a _ _ Ha (Hposted _ Hin)) as [Hd Hh].
      destruct (pool_constr_sound a ub resource u t Hd Hh) as (Hor & ? & ?).
      unfold disjoint_in_time, end_of in Hor.
      split; [|done]. destruct Hor as [[?|?]|?]; auto.
Qed.

Lemma pooled_resource_witness :
  build_model Example.plant 20 true = Ok Example.optimized
  ∧ 1 < capacity Example.P
  ∧ nj.satisfies Example.val (model Example.optimized) = true
  ∧ NoDup (all_tasks_of Example.plant)
  ∧ ∃ cs,
      contention_for (nj_tasks Example.optimized)
        (nj_taskresources Example.optimized) (all_tasks_of Example.plant)
        Example.P = Ok cs
      ∧ length cs = 3%nat
      ∧ (∃ i : nat,
           cs !! i = Some (pool_constr_of 20 Example.P (Example.a1, Example.b1))
           ∨ cs !! i = Some (pool_constr_of 20 Example.P (Example.b1, Example.a1)))
      ∧ (start_of Example.val Example.a1 + duration Example.a1
         <= start_of Example.val Example.b1
         ∨ start_of Example.val Example.b1 + duration Example.b1
           <= start_of Example.val Example.a1
         ∨ slot_of Example.val Example.a1 Example.P
           ≠ slot_of Example.val Example.b1 Example.P)
      ∧ 1 <= slot_of Example.val Example.a1 Example.P <= capacity Example.P.
Proof.
  assert (Hb : build_model Example.plant 20 true = Ok Example.optimized)
    by (vm_compute; reflexivity).
  assert (Hcap : 1 < capacity Example.P) by (simpl; lia).
  assert (Ha : nj.satisfies Example.val (model Example.optimized) = true)
    by (vm_compute; reflexivity).
  assert (Hnd : NoDup (all_tasks_of Example.plant))
    by (apply (bool_decide_unpack _); vm_compute; exact I).
  assert (H1 : Example.a1 ∈ sharing Example.P (all_tasks_of Example.plant))
    by (vm_compute; left).
  assert (H2 : Example.b1 ∈ sharing Example.P (all_tasks_of Example.plant))
    by (vm_compute; right; right; left).
  assert (Hne : Example.a1 ≠ Example.b1) by discriminate.
  split; [exact Hb|]. split; [exact Hcap|]. split; [exact Ha|].
  split; [exact Hnd|].
  destruct (pooled_resource Example.plant 20 true Example.optimized Example.P
              Hb Hcap) as (cs & Hcs & _ & Hlen & _ & _ & Hone & Hsem).
  exists cs. split; [exact Hcs|]. split; [exact Hlen|].
  destruct (Hone Hnd Example.a1 Example.b1 H1 H2 Hne) as (i & Hi & _).
  destruct (Hsem Example.val Ha Example.a1 Example.b1 H1 H2 Hne)
    as (Hor & Hslot & _).
  split; [by exists i|]. split; [exact Hor | exact Hslot].
Defined.

(** ** Start-time variables *)

(** C9, as the code has it: the builder creates exactly one start-time
    variable per task of the flattened task sequences, tagged with the
    task's duration, and its domain is [0, upper_bound - duration]: a start
    is admissible when the task, started there, ends by [upper_bound]. *)
Theorem start_variables (wus : list WorkUnit) (ub : Z) (opt : bool) (b : Built) :
  build_model wus ub opt = Ok b →
  nj_tasks b = make_nj_tasks ub (all_tasks_of wus)
  ∧ dom (nj_tasks b) = list_to_set (all_tasks_of wus)
  ∧ ∀ task, task ∈ all_tasks_of wus →
      nj_tasks b !! task
      = Some (nj.mkTask (nj.mkVariable (nj.StartOf task) 0 (ub - duration task))
                        (duration task))
      ∧ ∀ a, nj.in_domain a (nj.start_var (nj_task_of ub task)) = true
             ↔ 0 <= start_of a task <= ub - duration task.
Proof.
  intros (? & ? & ? & ? & _ & _ & _ & _ & ->)%build_model_inv. simpl.
  split; [done|]. split.
  - apply set_eq. intros task.
    rewrite elem_of_dom, lookup_make_nj_tasks, elem_of_list_to_set.
    case_decide; [split; eauto | split; [by intros [? ?] | done]].
  - intros task Hin. rewrite lookup_make_nj_tasks, decide_True by done.
    split; [done|]. intros a. unfold nj.in_domain, start_of. simpl.
    unfold nj.get_value. simpl. rewrite andb_true_iff, !Z.leb_le. done.
Qed.

Lemma start_variables_witness :
  build_model Example.plant 20 true = Ok Example.optimized
  ∧ nj_tasks Example.optimized !! Example.a1
    = Some (nj.mkTask (nj.mkVariable (nj.StartOf Example.a1) 0 17) 3).
Proof.
  assert (Hb : build_model Example.plant 20 true = Ok Example.optimized)
    by (vm_compute; reflexivity).
  split; [exact Hb|].
  destruct (start_variables Example.plant 20 true Example.optimized Hb)
    as (_ & _ & Htask).
  refine (proj1 (Htask Example.a1 _)). vm_compute. left.
Defined.

(** C9, as stated, fails: under the horizon 5 a task of duration 3 has the
    start domain [0, 2]; the start value 4 lies in [0, 5) and is not
    admissible, and no valuation that starts the task at 3 or 4 satisfies
    the model, which holds no constraint but the objective's. *)
Lemma start_domain_counterexample :
  build_model [Short.W] 5 true = Ok Short.built
  ∧ nj_tasks Short.built !! Short.t
    = Some (nj.mkTask (nj.mkVariable (nj.StartOf Short.t) 0 2) 3)
  ∧ 0 <= 4 < 5
  ∧ nj.in_domain (λ _, 4) (nj.mkVariable (nj.StartOf Short.t) 0 2) = false
  ∧ ∀ a, 2 < start_of a Short.t → nj.satisfies a (model Short.built) = false.
Proof.
  split; [vm_compute; reflexivity|]. split; [vm_compute; reflexivity|].
  split; [lia|]. split; [vm_compute; reflexivity|].
  intros a Ha. unfold start_of in Ha.
  change (model Short.built)
    with [nj.Post (nj.CGt (nj.EVar C_max)
            (nj.EAdd (nj.py_sum [])
               (nj.py_sum [end_expr (nj_task_of 5 Short.t) 3])));
          nj.Minimize (nj.EVar C_max)].
  unfold nj.satisfies. simpl. unfold nj.in_domain at 2. simpl.
  unfold nj.get_value. simpl.
  replace (a (nj.StartOf Short.t) <=? 5 - 3) with false
    by (symmetry; apply Z.leb_gt; lia).
  by rewrite !andb_false_r.
Qed.

(** ** The objective *)

Lemma build_model_core (wus : list WorkUnit) (ub : Z) (opt : bool) (b : Built) :
  build_model wus ub opt = Ok b ↔
  ∃ core goal,
    core_constraints wus ub = Ok core
    ∧ objective (make_nj_tasks ub (all_tasks_of wus)) wus opt = Ok goal
    ∧ b = mkBuilt (make_nj_tasks ub (all_tasks_of wus))
            (make_nj_taskresources (all_tasks_of wus))
            ((nj.Post <$> core) ++ goal).
Proof.
  rewrite build_model_inv. unfold core_constraints.
  rewrite resource_contention_Ok, chain_constraints_Ok. simpl. split.
  - intros (custom & deps & pins & goal & -> & -> & -> & Hgo & ->). simpl.
    eauto.
  - intros (core & goal & Hcore & Hgo & ->).
    apply bind_Ok in Hcore as (custom & Hcu & H).
    apply bind_Ok in H as (deps & Hde & H).
    apply bind_Ok in H as (pins & Hpi & [= <-]).
    by exists custom, deps, pins, goal.
Qed.

Lemma total_cons (z : Z) (zs : list Z) : total (z :: zs) = z + total zs.
Proof. done. Qed.

Lemma eval_fold_EAdd (a : nj.Valuation) (es : list nj.Expr) (e0 : nj.Expr) :
  nj.eval a (fold_left nj.EAdd es e0) = nj.eval a e0 + total (nj.eval a <$> es).
Proof.
  revert e0. induction es as [|e es IH]; intros e0.
  - cbn. lia.
  - rewrite fmap_cons, total_cons. cbn [fold_left]. rewrite IH. cbn. lia.
Qed.

Lemma eval_py_sum (a : nj.Valuation) (es : list nj.Expr) :
  nj.eval a (nj.py_sum es) = total (nj.eval a <$> es).
Proof. unfold nj.py_sum. by rewrite eval_fold_EAdd. Qed.

Lemma expr_dom_fold_EAdd (a : nj.Valuation) (es : list nj.Expr) (e0 : nj.Expr) :
  nj.expr_dom a (fold_left nj.EAdd es e0)
  = nj.expr_dom a e0 && forallb (nj.expr_dom a) es.
Proof.
  revert e0. induction es as [|e es IH]; intros e0; simpl.
  - by rewrite andb_true_r.
  - rewrite IH. simpl. by rewrite andb_assoc.
Qed.

Lemma expr_dom_py_sum (a : nj.Valuation) (es : list nj.Expr) :
  nj.expr_dom a (nj.py_sum es) = forallb (nj.expr_dom a) es.
Proof. unfold nj.py_sum. by rewrite expr_dom_fold_EAdd. Qed.

Lemma tardiness_term_Ok (ub : Z) (l : list Task) (wu : WorkUnit) (d : Z)
    (e : nj.Expr) :
  tardiness_term (make_nj_tasks ub l) (wu, d) = Ok e ↔
  ∃ t, last (tasks wu) = Some t ∧ t ∈ l
       ∧ e = nj.EMul
               (nj.EMax [nj.EVar ZERO;
                         nj.ESub (end_expr (nj_task_of ub t) (duration t))
                                 (nj.EConst d)])
               (nj.EConst (1000 * priority wu)).
Proof.
  unfold tardiness_term. rewrite bind_Ok. split.
  - intros (c & (t & Ht & Hin & ->)%completion_expr_Ok & [= <-]). eauto.
  - intros (t & Ht & Hin & ->). eexists. split; [|done].
    apply completion_expr_Ok. eauto.
Qed.

Lemma deadline_constraint_Ok (ub : Z) (l : list Task) (wu : WorkUnit) (d : Z)
    (c : nj.Constr) :
  deadline_constraint (make_nj_tasks ub l) (wu, d) = Ok c ↔
  ∃ t, last (tasks wu) = Some t ∧ t ∈ l
       ∧ c = nj.CLt (end_expr (nj_task_of ub t) (duration t)) (nj.EConst d).
Proof.
  unfold deadline_constraint. rewrite bind_Ok. split.
  - intros (e & (t & Ht & Hin & ->)%completion_expr_Ok & [= <-]). eauto.
  - intros (t & Ht & Hin & ->). eexists. split; [|done].
    apply completion_expr_Ok. eauto.
Qed.

Lemma eval_end_expr (a : nj.Valuation) (ub : Z) (t : Task) :
  nj.eval a (end_expr (nj_task_of ub t) (duration t)) = end_of a t.
Proof. done. Qed.

Lemma in_domain_ZERO (a : nj.Valuation) :
  nj.in_domain a ZERO = true ↔ a nj.ZeroId = 0.
Proof.
  unfold nj.in_domain, nj.get_value. simpl. rewrite andb_true_iff, !Z.leb_le.
  lia.
Qed.

Lemma in_domain_C_max (a : nj.Valuation) :
  nj.in_domain a C_max = true ↔ 0 <= a nj.CmaxId <= 1500000.
Proof.
  unfold nj.in_domain, nj.get_value. simpl. rewrite andb_true_iff, !Z.leb_le.
  done.
Qed.

(** The completion expressions evaluate to the completion times. *)
Lemma eval_completions (a : nj.Valuation) (ub : Z) (l : list Task)
    (wus : list WorkUnit) (es : list nj.Expr) :
  mapM (completion_expr (make_nj_tasks ub l)) wus = Ok es →
  nj.eval a <$> es = completion_time a <$> wus.
Proof.
  rewrite mapM_Ok. induction 1 as [|wu e wus es He _ IH]; [done|].
  rewrite !fmap_cons, IH. f_equal.
  apply completion_expr_Ok in He as (t & Ht & _ & ->).
  unfold completion_time. by rewrite Ht.
Qed.

(** So do the penalty terms, wherever [ZERO] takes its only value. *)
Lemma eval_penalties (a : nj.Valuation) (ub : Z) (l : list Task)
    (ps : list (WorkUnit * Z)) (es : list nj.Expr) :
  a nj.ZeroId = 0 →
  mapM (tardiness_term (make_nj_tasks ub l)) ps = Ok es →
  nj.eval a <$> es
  = (λ p : WorkUnit * Z,
       1000 * priority p.1 * Z.max 0 (completion_time a p.1 - p.2)) <$> ps.
Proof.
  intros Hz. rewrite mapM_Ok. induction 1 as [|[wu d] e ps es He _ IH]; [done|].
  rewrite !fmap_cons, IH. f_equal.
  apply tardiness_term_Ok in He as (t & Ht & _ & ->).
  cbn [fst snd]. unfold completion_time. rewrite Ht. simpl.
  unfold nj.get_value. simpl. rewrite Hz. unfold end_of, start_of. lia.
Qed.

Lemma penalties_dom_ZERO (a : nj.Valuation) (ub : Z) (l : list Task)
    (ps : list (WorkUnit * Z)) (es : list nj.Expr) :
  mapM (tardiness_term (make_nj_tasks ub l)) ps = Ok es →
  ps ≠ [] →
  forallb (nj.expr_dom a) es = true → a nj.ZeroId = 0.
Proof.
  rewrite mapM_Ok. destruct 1 as [|[wu d] e ps es He _]; [done|].
  intros _. simpl. rewrite andb_true_iff. intros [Hd _].
  apply tardiness_term_Ok in He as (t & _ & _ & ->). simpl in Hd.
  rewrite !andb_true_iff in Hd. by apply in_domain_ZERO, Hd.
Qed.

Lemma objective_optimize_Ok (ub : Z) (l : list Task) (wus : list WorkUnit)
    (goal : list nj.Item) :
  objective (make_nj_tasks ub l) wus true = Ok goal ↔
  ∃ penalties completions,
    mapM (tardiness_term (make_nj_tasks ub l)) (due_dated wus) = Ok penalties
    ∧ mapM (completion_expr (make_nj_tasks ub l)) wus = Ok completions
    ∧ goal = [nj.Post (nj.CGt (nj.EVar C_max)
                         (nj.EAdd (nj.py_sum penalties) (nj.py_sum completions)));
              nj.Minimize (nj.EVar C_max)].
Proof.
  unfold objective. rewrite bind_Ok. split.
  - intros (pen & Hpen & H). apply bind_Ok in H as (compl & Hcompl & [= <-]).
    by exists pen, compl.
  - intros (pen & compl & Hpen & Hcompl & ->). exists pen. split; [done|].
    apply bind_Ok. by exists compl.
Qed.

(** What a valuation must do to satisfy the surrogate's constraint. *)
Lemma surrogate_sound (a : nj.Valuation) (ub : Z) (l : list Task)
    (wus : list WorkUnit) (penalties completions : list nj.Expr) :
  mapM (tardiness_term (make_nj_tasks ub l)) (due_dated wus) = Ok penalties →
  mapM (completion_expr (make_nj_tasks ub l)) wus = Ok completions →
  nj.item_ok a (nj.Post (nj.CGt (nj.EVar C_max)
                  (nj.EAdd (nj.py_sum penalties) (nj.py_sum completions))))
  = true →
  0 <= a nj.CmaxId <= 1500000
  ∧ a nj.CmaxId > weighted_tardiness a wus + total_completion a wus.
Proof.
  intros Hpen Hcompl. simpl.
  rewrite !andb_true_iff, !expr_dom_py_sum, !eval_py_sum, in_domain_C_max.
  intros [(Hc & Hdp & _) Hgt]. split; [done|].
  unfold nj.get_value in Hgt. simpl in Hgt.
  apply Z.gtb_gt in Hgt. unfold weighted_tardiness, total_completion.
  rewrite <- (eval_completions a ub l wus completions Hcompl).
  destruct (due_dated wus) as [|p ps] eqn:Hps.
  - apply mapM_Ok in Hpen. inversion Hpen; subst. exact Hgt.
  - rewrite <- (eval_penalties a ub l (p :: ps) penalties); [done| |done].
    by apply (penalties_dom_ZERO a ub l (p :: ps) penalties).
Qed.

(** C3: in optimize mode the model ends with the constraint that the
    surrogate [C_max], a variable of domain [0, 1500000], is strictly above
    the sum over the due-dated work units of
    [1000 * priority * max(0, completion_time - due_time)] plus the sum over
    all work units of [completion_time], and with the objective "minimize
    [C_max]"; [completion_time] is the start of the last task plus its
    duration. *)
Theorem optimize_objective (wus : list WorkUnit) (ub : Z) (b : Built) :
  build_model wus ub true = Ok b →
  ∃ core penalties completions,
    core_constraints wus ub = Ok core
    ∧ model b
      = (nj.Post <$> core)
        ++ [nj.Post (nj.CGt (nj.EVar C_max)
                       (nj.EAdd (nj.py_sum penalties) (nj.py_sum completions)));
            nj.Minimize (nj.EVar C_max)]
    ∧ C_max = nj.mkVariable nj.CmaxId 0 1500000
    ∧ Forall2
        (λ p e, ∃ t,
           last (tasks p.1) = Some t
           ∧ e = nj.EMul
                   (nj.EMax [nj.EVar ZERO;
                             nj.ESub (nj.EAdd (nj.ETask (nj_task_of ub t))
                                              (nj.EConst (duration t)))
                                     (nj.EConst p.2)])
                   (nj.EConst (1000 * priority p.1)))
        (due_dated wus) penalties
    ∧ Forall2
        (λ wu e, ∃ t,
           last (tasks wu) = Some t
           ∧ e = nj.EAdd (nj.ETask (nj_task_of ub t)) (nj.EConst (duration t)))
        wus completions
    ∧ (∀ wu d, (wu, d) ∈ due_dated wus ↔ wu ∈ wus ∧ due_time wu = Some d)
    ∧ ∀ a, nj.satisfies a (model b) = true →
        0 <= a nj.CmaxId <= 1500000
        ∧ a nj.CmaxId > weighted_tardiness a wus + total_completion a wus.
Proof.
  intros (core & goal & Hcore & Hgo & ->)%build_model_core.
  apply objective_optimize_Ok in Hgo as (pen & compl & Hpen & Hcompl & ->).
  exists core, pen, compl. simpl.
  split; [done|]. split; [done|]. split; [done|].
  split; [|split; [|split; [apply elem_of_due_dated|]]].
  - pose proof Hpen as HF. apply mapM_Ok in HF.
    eapply Forall2_impl; [exact HF|]. intros [wu d] e He.
    apply tardiness_term_Ok in He as (t & Ht & _ & ->). by exists t.
  - pose proof Hcompl as HF. apply mapM_Ok in HF.
    eapply Forall2_impl; [exact HF|]. intros wu e He.
    apply completion_expr_Ok in He as (t & Ht & _ & ->). by exists t.
  - intros a Ha. unfold nj.satisfies in Ha. rewrite forallb_app in Ha.
    apply andb_true_iff in Ha as [_ Ha]. cbn [forallb] in Ha.
    apply andb_true_iff in Ha as [Ha _].
    by apply (surrogate_sound a ub (all_tasks_of wus) wus pen compl).
Qed.

Lemma optimize_objective_witness :
  build_model Tight.plant 20 true = Ok Tight.optimized
  ∧ nj.satisfies Tight.val (model Tight.optimized) = true
  ∧ weighted_tardiness Tight.val Tight.plant = 1000
  ∧ total_completion Tight.val Tight.plant = 14
  ∧ 0 <= Tight.val nj.CmaxId <= 1500000
  ∧ Tight.val nj.CmaxId
    > weighted_tardiness Tight.val Tight.plant
      + total_completion Tight.val Tight.plant.
Proof.
  assert (Hb : build_model Tight.plant 20 true = Ok Tight.optimized)
    by (vm_compute; reflexivity).
  assert (Ha : nj.satisfies Tight.val (model Tight.optimized) = true)
    by (vm_compute; reflexivity).
  split; [exact Hb|]. split; [exact Ha|].
  split; [vm_compute; reflexivity|]. split; [vm_compute; reflexivity|].
  destruct (optimize_objective Tight.plant 20 Tight.optimized Hb)
    as (core & pen & compl & _ & _ & _ & _ & _ & _ & Hsem).
  exact (Hsem Tight.val Ha).
Defined.

(** ** Writing the schedule back *)

Lemma fold_left_fmap {A B C} (f : C → B → C) (h : A → B) (l : list A) (c : C) :
  fold_left f (h <$> l) c = fold_left (λ c x, f c (h x)) l c.
Proof.
  revert c. induction l as [|x l IH]; intros c; [done|].
  rewrite fmap_cons. simpl. apply IH.
Qed.

Lemma lookup_slots (g : Resource → Z) (rs : list Resource) (r : Resource) :
  dict_of fst snd ((λ r, (r, g r)) <$> rs) !! r
  = if decide (r ∈ rs) then Some (g r) else None.
Proof.
  unfold dict_of. rewrite fold_left_fmap. simpl.
  rewrite (lookup_fold_insert id g rs ∅ r), list_fmap_id, lookup_empty. done.
Qed.

Lemma schedule_of_Ok (ub : Z) (l : list Task) (m : list nj.Item)
    (a : nj.Valuation) (task : Task) :
  task ∈ l →
  schedule_of (mkBuilt (make_nj_tasks ub l) (make_nj_taskresources l) m) a task
  = Ok (start_of a task, start_of a task + duration task,
        dict_of fst snd ((λ r, (r, slot_of a task r)) <$> resources task)).
Proof.
  intros Hin. unfold schedule_of. simpl.
  rewrite getitem_nj_tasks by done. simpl.
  rewrite (mapM_Ok_fmap _ (λ r, (r, slot_of a task r))); [done|].
  intros r Hr. rewrite getitem_nj_taskresources by done. simpl.
  rewrite getitem_slot by done. done.
Qed.

Lemma materialize_Ok (b : Built) (a : nj.Valuation) (sched : Task → Scheduled)
    (l : list Task) (σ : Store) :
  (∀ task, task ∈ l → schedule_of b a task = Ok (sched task)) →
  materialize b a l σ
  = (Ok (), fold_left (λ σ task, <[task := sched task]> σ) l σ).
Proof.
  revert σ. induction l as [|task l IH]; intros σ Hs; [done|].
  simpl. rewrite Hs by left. apply IH. intros t Ht. apply Hs. by right.
Qed.

(** The store after a successful call. *)
Lemma materialize_lookup (ub : Z) (l : list Task) (m : list nj.Item)
    (a : nj.Valuation) (σ : Store) :
  ∃ σ',
    materialize (mkBuilt (make_nj_tasks ub l) (make_nj_taskresources l) m) a l σ
    = (Ok (), σ')
    ∧ ∀ task,
        σ' !! task
        = if decide (task ∈ l)
          then Some (start_of a task, start_of a task + duration task,
                     dict_of fst snd
                       ((λ r, (r, slot_of a task r)) <$> resources task))
          else σ !! task.
Proof.
  set (sched := λ task : Task,
         (start_of a task, start_of a task + duration task,
          dict_of fst snd ((λ r, (r, slot_of a task r)) <$> resources task))).
  exists (fold_left (λ σ task, <[task := sched task]> σ) l σ). split.
  - apply materialize_Ok. intros task Hin. by apply schedule_of_Ok.
  - intros task. pose proof (lookup_fold_insert id sched l σ task) as H.
    rewrite list_fmap_id in H. exact H.
Qed.

(** C5: the call is all or nothing.  When the engine answers that there is
    no solution the call raises the one "no solution" error; whatever the
    call raises, the [scheduled] attributes are as they were; and when the
    call returns, it returns the work units, and [scheduled] of every task
    holds the resolved start, the start plus the duration, and the mapping
    of each required resource to its resolved slot. *)
Theorem all_or_nothing
    (engine : string → Z → list nj.Item → result (option nj.Valuation))
    (wus : list WorkUnit) (ub : Z) (opt : bool) (time_limit : Z)
    (solver_method : string) (σ : Store) :
  (∀ b, build_model wus ub opt = Ok b →
        engine solver_method time_limit (model b) = Ok None →
        numberjack_scheduler engine wus ub opt time_limit solver_method σ
        = (Raise no_solution, σ))
  ∧ (∀ e σ',
       numberjack_scheduler engine wus ub opt time_limit solver_method σ
       = (Raise e, σ') → σ' = σ)
  ∧ (∀ out σ',
       numberjack_scheduler engine wus ub opt time_limit solver_method σ
       = (Ok out, σ') →
       out = wus
       ∧ ∃ b a,
           build_model wus ub opt = Ok b
           ∧ engine solver_method time_limit (model b) = Ok (Some a)
           ∧ (∀ task, task ∈ all_tasks_of wus →
                ∃ slots,
                  σ' !! task
                  = Some (start_of a task, start_of a task + duration task, slots)
                  ∧ ∀ r, slots !! r
                         = if decide (r ∈ resources task)
                           then Some (slot_of a task r) else None)
           ∧ ∀ task, task ∉ all_tasks_of wus → σ' !! task = σ !! task)
  ∧ (∀ b a, build_model wus ub opt = Ok b →
            engine solver_method time_limit (model b) = Ok (Some a) →
            ∃ σ',
              numberjack_scheduler engine wus ub opt time_limit solver_method σ
              = (Ok wus, σ')).
Proof.
  unfold numberjack_scheduler.
  destruct (build_model wus ub opt) as [b|e0] eqn:Hb.
  2: { split; [done|]. split; [by intros e σ' [= _ <-]|]. by split. }
  pose proof Hb as (core & goal & _ & _ & Hbeq)%build_model_core.
  destruct (engine solver_method time_limit (model b)) as [[a|]|e1] eqn:He.
  - rewrite Hbeq.
    destruct (materialize_lookup ub (all_tasks_of wus)
                ((nj.Post <$> core) ++ goal) a σ) as (σ1 & -> & Hlook).
    rewrite <- Hbeq. split; [|split; [|split]].
    + intros b' [= <-]. by rewrite He.
    + done.
    + intros out σ' [= <- <-]. split; [done|]. exists b, a.
      split; [done|]. split; [done|]. split.
      * intros task Hin. rewrite Hlook, decide_True by done.
        eexists. split; [done|]. intros r. apply lookup_slots.
      * intros task Hnin. by rewrite Hlook, decide_False.
    + intros b' a' [= <-] _. by exists σ1.
  - split; [done|]. split; [by intros e σ' [= _ <-]|]. split; [done|].
    intros b' a' [= <-]. by rewrite He.
  - split; [intros b' [= <-]; by rewrite He|].
    split; [by intros e σ' [= _ <-]|]. split; [done|].
    intros b' a' [= <-]. by rewrite He.
Qed.

Lemma all_or_nothing_witness :
  numberjack_scheduler (Tight.checking_engine Example.val) Tight.plant 20 false
    5 "Mistral" ∅
  = (Raise no_solution, ∅)
  ∧ ∃ σ' slots,
      numberjack_scheduler (Tight.checking_engine Example.val) Example.plant 20
        true 5 "Mistral" ∅
      = (Ok Example.plant, σ')
      ∧ σ' !! Example.a2 = Some (3, 5, slots)
      ∧ slots !! Example.P = Some 2.
Proof.
  split.
  - refine (proj1 (all_or_nothing (Tight.checking_engine Example.val)
                     Tight.plant 20 false 5 "Mistral" ∅) Tight.feasible _ _);
      vm_compute; reflexivity.
  - destruct (all_or_nothing (Tight.checking_engine Example.val)
                Example.plant 20 true 5 "Mistral" ∅) as (_ & _ & Hok & Htot).
    destruct (Htot Example.optimized Example.val) as [σ' Hrun];
      [vm_compute; reflexivity..|].
    destruct (Hok _ _ Hrun) as (_ & b & a & Hb & He & Hset & _).
    assert (Hbe : Ok b = Ok Example.optimized)
      by (rewrite <- Hb; vm_compute; reflexivity).
    injection Hbe as ->.
    assert (Hae : Ok (Some a) = Ok (Some Example.val))
      by (rewrite <- He; vm_compute; reflexivity).
    injection Hae as ->.
    destruct (Hset Example.a2) as (slots & Hs & Hslots);
      [vm_compute; right; left|].
    exists σ', slots. split; [exact Hrun|]. split; [exact Hs|].
    rewrite Hslots. reflexivity.
Defined.

(** ** Deadlines *)

Lemma objective_feasible_Ok (ub : Z) (l : list Task) (wus : list WorkUnit)
    (goal : list nj.Item) :
  objective (make_nj_tasks ub l) wus false = Ok goal ↔
  ∃ deadlines,
    mapM (deadline_constraint (make_nj_tasks ub l)) (due_dated wus) = Ok deadlines
    ∧ goal = nj.Post <$> deadlines.
Proof.
  unfold objective. rewrite bind_Ok. split.
  - intros (cs & Hcs & [= <-]). eauto.
  - intros (cs & Hcs & ->). eauto.
Qed.

(** C4: in feasibility mode the model holds, for every work unit with a due
    time, the constraint "start of the last task plus its duration is
    strictly below the due time", and nothing else on top of the constraints
    common to both modes: no surrogate and no objective.  When no valuation
    satisfies the model, a call on a sound engine raises and writes no
    schedule. *)
Theorem feasibility_deadlines (wus : list WorkUnit) (ub : Z) (b : Built) :
  build_model wus ub false = Ok b →
  ∃ core deadlines,
    core_constraints wus ub = Ok core
    ∧ model b = nj.Post <$> (core ++ deadlines)
    ∧ Forall2
        (λ p c, ∃ t,
           last (tasks p.1) = Some t
           ∧ c = nj.CLt (nj.EAdd (nj.ETask (nj_task_of ub t))
                                 (nj.EConst (duration t)))
                        (nj.EConst p.2))
        (due_dated wus) deadlines
    ∧ (∀ wu d, (wu, d) ∈ due_dated wus ↔ wu ∈ wus ∧ due_time wu = Some d)
    ∧ (∀ e, nj.Minimize e ∉ model b)
    ∧ (∀ a, nj.satisfies a (model b) = true →
         ∀ wu d, wu ∈ wus → due_time wu = Some d →
           ∃ t, last (tasks wu) = Some t ∧ start_of a t + duration t < d)
    ∧ ∀ engine time_limit solver_method σ,
        engine_sound engine →
        (∀ a, nj.satisfies a (model b) = false) →
        ∃ e,
          numberjack_scheduler engine wus ub false time_limit solver_method σ
          = (Raise e, σ)
          ∧ (engine solver_method time_limit (model b) = Ok None →
             e = no_solution).
Proof.
  intros Hb. pose proof Hb as (core & goal & Hcore & Hgo & Hbeq)%build_model_core.
  apply objective_feasible_Ok in Hgo as (deadlines & Hdl & ->).
  exists core, deadlines.
  assert (Hm : model b = nj.Post <$> (core ++ deadlines))
    by (rewrite Hbeq; simpl; by rewrite fmap_app).
  pose proof Hdl as HF. apply mapM_Ok in HF.
  split; [done|]. split; [done|].
  split; [|split; [apply elem_of_due_dated|split; [|split]]].
  - eapply Forall2_impl; [exact HF|]. intros [wu d] c Hc.
    apply deadline_constraint_Ok in Hc as (t & Ht & _ & ->). by exists t.
  - intros e. rewrite Hm. by intros (c & ? & _)%list_elem_of_fmap.
  - intros a Ha wu d Hwu Hd.
    assert (He : (wu, d) ∈ due_dated wus) by by apply elem_of_due_dated.
    apply list_elem_of_lookup in He as [i Hi].
    destruct (Forall2_lookup_l _ _ _ _ _ HF Hi) as (c & Hci & Hc).
    apply deadline_constraint_Ok in Hc as (t & Ht & _ & ->).
    exists t. split; [done|].
    assert (Hin : nj.Post (nj.CLt (end_expr (nj_task_of ub t) (duration t))
                                  (nj.EConst d)) ∈ model b).
    { rewrite Hm. apply list_elem_of_fmap_2, elem_of_app. right.
      apply list_elem_of_lookup. eauto. }
    destruct (satisfies_Post a _ _ Ha Hin) as [_ Hh].
    simpl in Hh. by apply Z.ltb_lt in Hh.
  - intros engine time_limit solver_method σ Hsound Hunsat.
    unfold numberjack_scheduler. rewrite Hb.
    destruct (engine solver_method time_limit (model b)) as [[a|]|e] eqn:He.
    + apply Hsound in He. by rewrite Hunsat in He.
    + by exists no_solution.
    + by exists e.
Qed.

Lemma tight_infeasible (a : nj.Valuation) :
  nj.satisfies a (model Tight.feasible) = false.
Proof.
  destruct (nj.satisfies a (model Tight.feasible)) eqn:Ha; [|done]. exfalso.
  assert (H1 : nj.Post (chain_constr 20 (Example.a1, Example.a2))
               ∈ model Tight.feasible)
    by (apply list_elem_of_In; vm_compute; auto 20).
  assert (H2 : nj.Post (nj.CLt (end_expr (nj_task_of 20 Example.a2) 2)
                               (nj.EConst 4)) ∈ model Tight.feasible)
    by (apply list_elem_of_In; vm_compute; auto 20).
  destruct (satisfies_Post a _ _ Ha H1) as [Hd1 Hh1].
  destruct (satisfies_Post a _ _ Ha H2) as [_ Hh2].
  simpl in Hd1, Hh1, Hh2. unfold nj.in_domain, nj.get_value in *.
  simpl in *. rewrite !andb_true_iff, !Z.leb_le in Hd1.
  apply Z.leb_le in Hh1. apply Z.ltb_lt in Hh2. lia.
Qed.

Lemma checking_engine_sound (candidate : nj.Valuation) :
  engine_sound (Tight.checking_engine candidate).
Proof.
  intros sm tl m a. unfold Tight.checking_engine.
  destruct (nj.satisfies candidate m) eqn:Hc; [|done]. by intros [= <-].
Qed.

Lemma feasibility_deadlines_witness :
  build_model Tight.plant 20 false = Ok Tight.feasible
  ∧ engine_sound (Tight.checking_engine Example.val)
  ∧ (∀ a, nj.satisfies a (model Tight.feasible) = false)
  ∧ ∃ e,
      numberjack_scheduler (Tight.checking_engine Example.val) Tight.plant 20
        false 5 "Mistral" ∅
      = (Raise e, ∅).
Proof.
  assert (Hb : build_model Tight.plant 20 false = Ok Tight.feasible)
    by (vm_compute; reflexivity).
  split; [exact Hb|]. split; [exact (checking_engine_sound Example.val)|].
  split; [exact tight_infeasible|].
  destruct (feasibility_deadlines Tight.plant 20 Tight.feasible Hb)
    as (core & deadlines & _ & _ & _ & _ & _ & _ & Hfail).
  destruct (Hfail (Tight.checking_engine Example.val) 5 "Mistral" ∅
              (checking_engine_sound Example.val) tight_infeasible)
    as (e & He & _).
  by exists e.
Defined.

(** ** Due times in optimize mode *)

Lemma mapM_fmap {A B C} (f : B → result C) (h : A → B) (l : list A) :
  mapM f (h <$> l) = mapM (f ∘ h) l.
Proof.
  induction l as [|x l IH]; [done|]. rewrite fmap_cons. simpl. by rewrite IH.
Qed.

Lemma mapM_ext {A B} (f g : A → result B) (l : list A) :
  (∀ x, f x = g x) → mapM f l = mapM g l.
Proof.
  intros Hfg. induction l as [|x l IH]; [done|]. simpl. by rewrite Hfg, IH.
Qed.

Lemma flat_map_fmap {A B C} (g : B → list C) (h : A → B) (l : list A) :
  flat_map g (h <$> l) = flat_map (g ∘ h) l.
Proof.
  induction l as [|x l IH]; [done|]. rewrite fmap_cons. simpl. by rewrite IH.
Qed.

Lemma flat_map_fmap_out {A B C} (g : A → list B) (k : B → C) (l : list A) :
  flat_map (λ x, k <$> g x) l = k <$> flat_map g l.
Proof.
  induction l as [|x l IH]; [done|]. simpl. by rewrite fmap_app, IH.
Qed.

Lemma all_tasks_of_undated (wus : list WorkUnit) :
  all_tasks_of (undated <$> wus) = all_tasks_of wus.
Proof. unfold all_tasks_of. by rewrite flat_map_fmap. Qed.

Lemma pinned_undated (wus : list WorkUnit) :
  pinned (undated <$> wus) = prod_map undated id <$> pinned wus.
Proof.
  unfold pinned. induction wus as [|wu wus IH]; [done|].
  rewrite fmap_cons.
  change (omap ?f (?x :: ?l))
    with (match f x with Some y => y :: omap f l | None => omap f l end).
  simpl. destruct (scheduled_start wu); simpl; by rewrite IH.
Qed.

Lemma pairs_undated {B} (items : WorkUnit → list B) (wus : list WorkUnit) :
  (∀ wu, items (undated wu) = items wu) →
  flat_map (λ wu, List.map (pair wu) (items wu)) (undated <$> wus)
  = prod_map undated id <$> flat_map (λ wu, List.map (pair wu) (items wu)) wus.
Proof.
  intros Hitems. induction wus as [|wu wus IH]; [done|].
  rewrite fmap_cons. simpl. rewrite fmap_app, IH, Hitems. f_equal.
  induction (items wu) as [|x l IHl]; [done|].
  simpl. by f_equal.
Qed.

(** The constraints common to both modes do not read the due times. *)
Lemma core_constraints_undated (wus : list WorkUnit) (ub : Z) :
  core_constraints (undated <$> wus) ub = core_constraints wus ub.
Proof.
  unfold core_constraints. rewrite all_tasks_of_undated.
  set (njt := make_nj_tasks ub (all_tasks_of wus)).
  assert (Hchain : chain_constraints njt (undated <$> wus)
                   = chain_constraints njt wus).
  { unfold chain_constraints. by rewrite flat_map_fmap. }
  assert (Hcustom : custom_constraints njt (undated <$> wus)
                    = custom_constraints njt wus).
  { unfold custom_constraints. rewrite (pairs_undated constraints) by done.
    rewrite mapM_fmap. apply mapM_ext. by intros [wu c]. }
  assert (Hdeps : dependency_constraints njt (undated <$> wus)
                  = dependency_constraints njt wus).
  { unfold dependency_constraints, dependency_edges.
    rewrite (pairs_undated parents) by done.
    rewrite mapM_fmap. apply mapM_ext. by intros [wu p]. }
  assert (Hpins : pin_constraints njt (undated <$> wus)
                  = pin_constraints njt wus).
  { unfold pin_constraints. rewrite pinned_undated, mapM_fmap.
    apply mapM_ext. by intros [wu s]. }
  by rewrite Hchain, Hcustom, Hdeps, Hpins.
Qed.

Lemma completions_dom (a : nj.Valuation) (ub : Z) (l : list Task)
    (wus : list WorkUnit) (es : list nj.Expr) :
  mapM (completion_expr (make_nj_tasks ub l)) wus = Ok es →
  (∀ wu t, wu ∈ wus → last (tasks wu) = Some t →
           0 <= start_of a t <= ub - duration t) →
  forallb (nj.expr_dom a) es = true.
Proof.
  rewrite mapM_Ok. induction 1 as [|wu e wus es He _ IH]; [done|].
  intros Hdom. simpl. rewrite IH by (intros; eapply Hdom; [by right|done]).
  apply completion_expr_Ok in He as (t & Ht & _ & ->).
  simpl. unfold nj.in_domain, nj.get_value. simpl.
  destruct (Hdom wu t) as [? ?]; [left|done|].
  rewrite !andb_true_iff, !Z.leb_le. unfold start_of in *. done.
Qed.

Lemma penalties_dom (a : nj.Valuation) (ub : Z) (l : list Task)
    (wus : list WorkUnit) (es : list nj.Expr) :
  mapM (tardiness_term (make_nj_tasks ub l)) (due_dated wus) = Ok es →
  (∀ wu t, wu ∈ wus → last (tasks wu) = Some t →
           0 <= start_of a t <= ub - duration t) →
  a nj.ZeroId = 0 →
  forallb (nj.expr_dom a) es = true.
Proof.
  intros Hes Hdom Hz. apply forallb_forall. intros e He%list_elem_of_In.
  apply mapM_Ok in Hes. apply list_elem_of_lookup in He as [i Hi].
  destruct (Forall2_lookup_r _ _ _ _ _ Hes Hi) as ([wu d] & Hp & Hterm).
  apply tardiness_term_Ok in Hterm as (t & Ht & _ & ->).
  assert (Hwu : wu ∈ wus).
  { apply (elem_of_due_dated wus wu d), list_elem_of_lookup. eauto. }
  destruct (Hdom wu t Hwu Ht) as [? ?].
  simpl. unfold nj.in_domain, nj.get_value. simpl.
  rewrite Hz, !andb_true_iff, !Z.leb_le. unfold start_of in *. lia.
Qed.

(** C10, as the code has it: in optimize mode the model is the constraints
    common to both modes, which do not read the due times, followed by the
    surrogate's constraint and the objective; no deadline is posted.  A
    valuation that satisfies the common constraints, whatever deadlines it
    misses, satisfies the model as soon as the surrogate is strictly above
    the weighted tardiness plus the completion times and within its domain
    [0, 1500000]. *)
Theorem soft_deadlines (wus : list WorkUnit) (ub : Z) (b : Built) :
  build_model wus ub true = Ok b →
  ∃ core bound,
    core_constraints wus ub = Ok core
    ∧ core_constraints (undated <$> wus) ub = Ok core
    ∧ model b
      = (nj.Post <$> core)
        ++ [nj.Post (nj.CGt (nj.EVar C_max) bound); nj.Minimize (nj.EVar C_max)]
    ∧ (∀ a, a nj.ZeroId = 0 →
            nj.eval a bound
            = weighted_tardiness a wus + total_completion a wus)
    ∧ ∀ a,
        nj.satisfies a (nj.Post <$> core) = true →
        (∀ wu t, wu ∈ wus → last (tasks wu) = Some t →
                 0 <= start_of a t <= ub - duration t) →
        a nj.ZeroId = 0 →
        0 <= a nj.CmaxId <= 1500000 →
        weighted_tardiness a wus + total_completion a wus < a nj.CmaxId →
        nj.satisfies a (model b) = true.
Proof.
  intros (core & goal & Hcore & Hgo & ->)%build_model_core.
  apply objective_optimize_Ok in Hgo as (pen & compl & Hpen & Hcompl & ->).
  exists core, (nj.EAdd (nj.py_sum pen) (nj.py_sum compl)). simpl.
  assert (Heval : ∀ a, a nj.ZeroId = 0 →
            nj.eval a (nj.EAdd (nj.py_sum pen) (nj.py_sum compl))
            = weighted_tardiness a wus + total_completion a wus).
  { intros a Hz. simpl. rewrite !eval_py_sum.
    unfold weighted_tardiness, total_completion.
    by rewrite (eval_penalties a ub _ _ _ Hz Hpen),
               (eval_completions a ub _ _ _ Hcompl). }
  split; [done|]. split; [by rewrite core_constraints_undated|].
  split; [done|]. split; [exact Heval|].
  intros a Hc Hdom Hz Hcmax Hgt. unfold nj.satisfies in *.
  rewrite forallb_app, Hc. cbn [forallb nj.item_ok nj.constr_dom nj.holds].
  rewrite Heval by done.
  change (nj.expr_dom a (nj.EAdd (nj.py_sum pen) (nj.py_sum compl)))
    with (nj.expr_dom a (nj.py_sum pen) && nj.expr_dom a (nj.py_sum compl)).
  rewrite !expr_dom_py_sum.
  rewrite (penalties_dom a ub _ wus pen Hpen Hdom Hz).
  rewrite (completions_dom a ub _ wus compl Hcompl Hdom).
  change (nj.expr_dom a (nj.EVar C_max)) with (nj.in_domain a C_max).
  rewrite (proj2 (in_domain_C_max a) Hcmax).
  change (nj.eval a (nj.EVar C_max)) with (a nj.CmaxId).
  replace (a nj.CmaxId >? weighted_tardiness a wus + total_completion a wus)
    with true; [done|].
  symmetry. apply Z.gtb_gt. lia.
Qed.

Lemma soft_deadlines_witness :
  build_model Tight.plant 20 true = Ok Tight.optimized
  ∧ due_time Tight.A = Some 4
  ∧ completion_time Tight.val Tight.A = 5
  ∧ nj.satisfies Tight.val (model Tight.optimized) = true.
Proof.
  assert (Hb : build_model Tight.plant 20 true = Ok Tight.optimized)
    by (vm_compute; reflexivity).
  split; [exact Hb|]. split; [reflexivity|]. split; [reflexivity|].
  destruct (soft_deadlines Tight.plant 20 Tight.optimized Hb)
    as (core & bound & Hcore & _ & _ & _ & Hsat).
  assert (Hce : Ok core = Ok Tight.core).
  { rewrite <- Hcore. vm_compute. reflexivity. }
  injection Hce as ->.
  apply Hsat.
  - vm_compute. reflexivity.
  - intros wu t Hwu Ht.
    apply elem_of_cons in Hwu as [->|Hwu];
      [|apply elem_of_cons in Hwu as [->|Hwu]; [|by apply elem_of_nil in Hwu]];
      injection Ht as <-; vm_compute; split; discriminate.
  - reflexivity.
  - vm_compute. split; discriminate.
  - vm_compute. reflexivity.
Defined.

(** C10, as stated, fails on "missed deadlines never make the model
    infeasible".  A single task of duration 10 is pinned at 490 under the
    horizon 500.  Without a due time the model has a solution.  With the due
    time 0 and priority 3 the penalty 1000 * 3 * 500 pushes the surrogate's
    bound past 1500000, the top of its domain, and no valuation satisfies
    the model. *)
Lemma soft_deadline_counterexample :
  build_model [Late.W_undated] 500 true = Ok Late.built_undated
  ∧ nj.satisfies Late.val (model Late.built_undated) = true
  ∧ build_model [Late.W] 500 true = Ok Late.built
  ∧ ∀ a, nj.satisfies a (model Late.built) = false.
Proof.
  split; [vm_compute; reflexivity|]. split; [vm_compute; reflexivity|].
  split; [vm_compute; reflexivity|].
  intros a. destruct (nj.satisfies a (model Late.built)) eqn:Ha; [|done].
  exfalso.
  assert (H1 : nj.Post (pin_constr 500 Late.t 490) ∈ model Late.built)
    by (apply list_elem_of_In; vm_compute; auto 20).
  assert (H2 : nj.Post
                 (nj.CGt (nj.EVar C_max)
                    (nj.EAdd
                       (nj.py_sum
                          [nj.EMul
                             (nj.EMax
                                [nj.EVar ZERO;
                                 nj.ESub (end_expr (nj_task_of 500 Late.t) 10)
                                         (nj.EConst 0)])
                             (nj.EConst 3000)])
                       (nj.py_sum [end_expr (nj_task_of 500 Late.t) 10])))
               ∈ model Late.built)
    by (apply list_elem_of_In; vm_compute; auto 20).
  destruct (satisfies_Post a _ _ Ha H1) as [_ Hpin].
  destruct (satisfies_Post a _ _ Ha H2) as [Hdom Hgt].
  simpl in Hpin, Hdom, Hgt. unfold nj.in_domain, nj.get_value in *.
  simpl in *. rewrite !andb_true_iff, !Z.leb_le in Hdom.
  apply Z.eqb_eq in Hpin. apply Z.gtb_gt in Hgt.
  rewrite Hpin in Hgt. lia.
Qed.

(** ** The builder returns a model on well-formed work units *)

Lemma mapM_is_Ok {A B} (f : A → result B) (l : list A) :
  (∀ x, x ∈ l → ∃ y, f x = Ok y) → ∃ k, mapM f l = Ok k.
Proof.
  induction l as [|x l IH]; intros Hf; [by exists []|].
  destruct (Hf x) as [y Hy]; [left|].
  destruct IH as [k Hk]; [intros z Hz; apply Hf; by right|].
  exists (y :: k). simpl. by rewrite Hy, Hk.
Qed.

Lemma last_is_Some {A} (l : list A) : l ≠ [] → ∃ x, last l = Some x.
Proof.
  destruct l as [|x l] using rev_ind; [done|]. intros _. exists x.
  apply last_snoc.
Qed.

Lemma completion_expr_is_Ok (ub : Z) (wus : list WorkUnit) (wu : WorkUnit) :
  wu ∈ wus → tasks wu ≠ [] →
  ∃ e, completion_expr (make_nj_tasks ub (all_tasks_of wus)) wu = Ok e.
Proof.
  intros Hwu [t Ht]%last_is_Some. eexists. apply completion_expr_Ok.
  exists t. split; [done|]. split; [|done].
  apply elem_of_all_tasks. exists wu. split; [done|]. by apply last_elem_of.
Qed.

Lemma first_task_expr_is_Ok (ub : Z) (wus : list WorkUnit) (wu : WorkUnit) :
  wu ∈ wus → tasks wu ≠ [] →
  ∃ e, first_task_expr (make_nj_tasks ub (all_tasks_of wus)) wu = Ok e.
Proof.
  intros Hwu Hne. destruct (tasks wu) as [|t l] eqn:Ht; [done|].
  eexists. apply first_task_expr_Ok. exists t. rewrite Ht.
  split; [done|]. split; [|done].
  apply elem_of_all_tasks. exists wu. split; [done|]. rewrite Ht. left.
Qed.

(** X4: the builder returns a model, in either mode, for work units with at
    least one task each whose parents end on a task of the call. *)
Lemma build_model_total (wus : list WorkUnit) (ub : Z) (opt : bool) :
  (∀ wu, wu ∈ wus → tasks wu ≠ []) →
  (∀ wu parent, wu ∈ wus → parent ∈ parents wu →
     ∃ t, last (tasks parent) = Some t ∧ t ∈ all_tasks_of wus) →
  ∃ b, build_model wus ub opt = Ok b.
Proof.
  intros Hne Hpar.
  set (njt := make_nj_tasks ub (all_tasks_of wus)).
  assert (Hcu : ∃ cs, custom_constraints njt wus = Ok cs).
  { apply mapM_is_Ok. intros [wu c] (wu' & Hwu & Hc)%elem_of_flat_map.
    apply elem_of_map in Hc as (c' & [= -> ->] & _). unfold custom_constraint.
    rewrite (mapM_Ok_fmap _ (nj_task_of ub)); [by eexists|].
    intros t Ht. apply getitem_nj_tasks, elem_of_all_tasks. eauto. }
  assert (Hde : ∃ cs, dependency_constraints njt wus = Ok cs).
  { apply mapM_is_Ok. intros [wu p] [Hwu Hp]%elem_of_dependency_edges.
    destruct (Hpar wu p Hwu Hp) as (tl & Hl & Hinl).
    destruct (tasks wu) as [|tf l] eqn:Hf; [by destruct (Hne wu Hwu)|].
    eexists. apply dependency_pair_Ok. exists tl, tf. rewrite Hf.
    split; [done|]. split; [done|]. split; [done|]. split; [|done].
    apply elem_of_all_tasks. exists wu. split; [done|]. rewrite Hf. left. }
  assert (Hpi : ∃ cs, pin_constraints njt wus = Ok cs).
  { apply mapM_is_Ok. intros [wu s] [Hwu Hs]%elem_of_pinned.
    destruct (first_task_expr_is_Ok ub wus wu Hwu (Hne wu Hwu)) as [e He].
    unfold pin_constraint. fold njt in He. rewrite He. by eexists. }
  assert (Hgo : ∃ goal, objective njt wus opt = Ok goal).
  { destruct opt.
    - destruct (mapM_is_Ok (tardiness_term njt) (due_dated wus)) as [pen Hpen].
      { intros [wu d] [Hwu Hd]%elem_of_due_dated.
        destruct (completion_expr_is_Ok ub wus wu Hwu (Hne wu Hwu)) as [e He].
        unfold tardiness_term. fold njt in He. rewrite He. by eexists. }
      destruct (mapM_is_Ok (completion_expr njt) wus) as [compl Hcompl].
      { intros wu Hwu. by apply completion_expr_is_Ok, Hne. }
      eexists. apply objective_optimize_Ok. by exists pen, compl.
    - destruct (mapM_is_Ok (deadline_constraint njt) (due_dated wus)) as [cs Hcs].
      { intros [wu d] [Hwu Hd]%elem_of_due_dated.
        destruct (completion_expr_is_Ok ub wus wu Hwu (Hne wu Hwu)) as [e He].
        unfold deadline_constraint. fold njt in He. rewrite He. by eexists. }
      eexists. apply objective_feasible_Ok. by exists cs. }
  destruct Hcu as [custom Hcu], Hde as [deps Hde], Hpi as [pins Hpi],
    Hgo as [goal Hgo].
  eexists. apply build_model_inv. by exists custom, deps, pins, goal.
Qed.

(** * Further properties of the scheduler *)

(** ** Custom constraints *)

Lemma custom_constraints_Ok (ub : Z) (wus : list WorkUnit) :
  custom_constraints (make_nj_tasks ub (all_tasks_of wus)) wus
  = Ok ((λ p : WorkUnit * ConstraintBuilder, p.2 (nj_task_of ub <$> tasks p.1))
        <$> flat_map (λ wu, List.map (pair wu) (constraints wu)) wus).
Proof.
  apply mapM_Ok_fmap. intros [wu c] (wu' & Hwu & Hc)%elem_of_flat_map.
  apply elem_of_map in Hc as (c' & Heq & _). injection Heq as -> ->.
  unfold custom_constraint.
  rewrite (mapM_Ok_fmap _ (nj_task_of ub)); [done|].
  intros t Ht. apply getitem_nj_tasks, elem_of_all_tasks. eauto.
Qed.

(** X1: every custom constraint of every work unit is applied to the list
    of the work unit's Numberjack tasks, in task order, and the result is
    posted as it is; this step never raises, and a valuation that satisfies
    the model satisfies each of these constraints. *)
Theorem custom_constraints_posted (wus : list WorkUnit) (ub : Z) :
  custom_constraints (make_nj_tasks ub (all_tasks_of wus)) wus
  = Ok ((λ p : WorkUnit * ConstraintBuilder, p.2 (nj_task_of ub <$> tasks p.1))
        <$> flat_map (λ wu, List.map (pair wu) (constraints wu)) wus)
  ∧ ∀ opt b, build_model wus ub opt = Ok b →
      ∀ wu constraint, wu ∈ wus → constraint ∈ constraints wu →
        nj.Post (constraint (nj_task_of ub <$> tasks wu)) ∈ model b
        ∧ ∀ a, nj.satisfies a (model b) = true →
               nj.holds a (constraint (nj_task_of ub <$> tasks wu)) = true.
Proof.
  split; [apply custom_constraints_Ok|].
  intros opt b Hb wu c Hwu Hc.
  assert (Hin : nj.Post (c (nj_task_of ub <$> tasks wu)) ∈ model b).
  { apply (elem_of_model wus ub opt b _ Hb). right; right; left.
    pose proof Hb as (? & ? & ? & ? & _ & _ & _ & _ & ->)%build_model_inv.
    simpl. eexists. split; [apply custom_constraints_Ok|].
    apply list_elem_of_fmap. exists (wu, c). split; [done|].
    apply elem_of_flat_map. exists wu. split; [done|].
    apply elem_of_map. eauto. }
  split; [done|]. intros a Ha. by destruct (satisfies_Post a _ _ Ha Hin).
Qed.

Lemma custom_constraints_posted_witness :
  build_model Example.plant 20 true = Ok Example.optimized
  ∧ nj.satisfies Example.val (model Example.optimized) = true
  ∧ nj.holds Example.val
      (Example.at_most_10_after (nj_task_of 20 <$> tasks Example.A)) = true.
Proof.
  assert (Hb : build_model Example.plant 20 true = Ok Example.optimized)
    by (vm_compute; reflexivity).
  assert (Ha : nj.satisfies Example.val (model Example.optimized) = true)
    by (vm_compute; reflexivity).
  split; [exact Hb|]. split; [exact Ha|].
  refine (proj2 (proj2 (custom_constraints_posted Example.plant 20) true
                   Example.optimized Hb Example.A Example.at_most_10_after _ _)
            Example.val Ha); left.
Defined.

(** ** Slot variables and the resources of the call *)

(** X2: the builder keeps, for every task of the call and for no other
    task, a dictionary whose keys are the resources the task requires, each
    mapped to a slot variable of domain [1, capacity]. *)
Theorem slot_variables (wus : list WorkUnit) (ub : Z) (opt : bool) (b : Built) :
  build_model wus ub opt = Ok b →
  dom (nj_taskresources b) = list_to_set (all_tasks_of wus)
  ∧ ∀ task, task ∈ all_tasks_of wus →
      ∃ rs, nj_taskresources b !! task = Some rs
            ∧ dom rs = list_to_set (resources task)
            ∧ ∀ r, r ∈ resources task →
                rs !! r = Some (nj.mkVariable (nj.SlotOf task r) 1 (capacity r)).
Proof.
  intros (? & ? & ? & ? & _ & _ & _ & _ & ->)%build_model_inv. simpl. split.
  - apply set_eq. intros task. unfold make_nj_taskresources.
    rewrite elem_of_dom, lookup_dict_of_id, elem_of_list_to_set.
    case_decide; [split; eauto | split; [by intros [? ?] | done]].
  - intros task Hin. exists (dict_of id (slot_var task) (resources task)).
    split; [by apply getitem_Ok, getitem_nj_taskresources|]. split.
    + apply set_eq. intros r.
      rewrite elem_of_dom, lookup_dict_of_id, elem_of_list_to_set.
      case_decide; [split; eauto | split; [by intros [? ?] | done]].
    + intros r Hr. by apply getitem_Ok, getitem_slot.
Qed.

Lemma slot_variables_witness :
  build_model Example.plant 20 true = Ok Example.optimized
  ∧ ∃ rs, nj_taskresources Example.optimized !! Example.b1 = Some rs
          ∧ rs !! Example.P
            = Some (nj.mkVariable (nj.SlotOf Example.b1 Example.P) 1 2).
Proof.
  assert (Hb : build_model Example.plant 20 true = Ok Example.optimized)
    by (vm_compute; reflexivity).
  split; [exact Hb|].
  destruct (slot_variables Example.plant 20 true Example.optimized Hb)
    as [_ Htask].
  destruct (Htask Example.b1) as (rs & Hrs & _ & Hslot);
    [vm_compute; right; right; left|].
  exists rs. split; [exact Hrs|]. apply Hslot. right. left.
Defined.

(** X3: the resource loop runs once over every resource that some task of
    the call requires and over no other: the list of resources has no
    repetition, and the loop never raises. *)
Theorem resources_visited_once (wus : list WorkUnit) (ub : Z) :
  NoDup (make_all_resources (all_tasks_of wus))
  ∧ (∀ r, r ∈ make_all_resources (all_tasks_of wus)
          ↔ ∃ wu task, wu ∈ wus ∧ task ∈ tasks wu ∧ r ∈ resources task)
  ∧ resource_contention (make_nj_tasks ub (all_tasks_of wus))
      (make_nj_taskresources (all_tasks_of wus)) (all_tasks_of wus)
      (make_all_resources (all_tasks_of wus))
    = Ok (List.concat (contention_of ub (all_tasks_of wus)
                         <$> make_all_resources (all_tasks_of wus))).
Proof.
  split; [apply NoDup_remove_dups|]. split; [|apply resource_contention_Ok].
  intros r. rewrite elem_of_all_resources. split.
  - intros (task & (wu & Hwu & Ht)%elem_of_all_tasks & Hr). by exists wu, task.
  - intros (wu & task & Hwu & Ht & Hr). exists task. split; [|done].
    apply elem_of_all_tasks. eauto.
Qed.

(** ** Exceptions of the builder *)

Lemma mapM_Raise {A B} (f : A → result B) (l : list A) (e : exn) :
  mapM f l = Raise e → ∃ x, x ∈ l ∧ f x = Raise e.
Proof.
  induction l as [|x l IH]; [done|]. simpl.
  destruct (f x) as [y|e'] eqn:Hx; simpl.
  - destruct (mapM f l) as [k|e'] eqn:Hl; simpl; [done|].
    intros [= ->]. destruct IH as (z & Hz & Hfz); [done|].
    exists z. split; [by right|done].
  - intros [= ->]. exists x. split; [left|done].
Qed.

Lemma mapM_Raise_one {A B} (f : A → result B) (l : list A) (e : exn) :
  (∀ x, x ∈ l → f x = Raise e ∨ ∃ y, f x = Ok y) →
  (∃ x, x ∈ l ∧ f x = Raise e) →
  mapM f l = Raise e.
Proof.
  intros Hall (x & Hx & Hfx).
  destruct (mapM f l) as [k|e'] eqn:Hl.
  - destruct (mapM_Ok_elem f l k x Hl Hx) as (y & Hy & _). congruence.
  - apply mapM_Raise in Hl as (z & Hz & Hfz).
    destruct (Hall z Hz) as [Hr|[y Hy]]; congruence.
Qed.

Lemma completion_expr_Raise (ub : Z) (l : list Task) (wu : WorkUnit) (e : exn) :
  completion_expr (make_nj_tasks ub l) wu = Raise e →
  (tasks wu = [] ∧ e = IndexError)
  ∨ (∃ t, last (tasks wu) = Some t ∧ (t ∉ l) ∧ e = KeyError).
Proof.
  unfold completion_expr, last_item.
  destruct (last (tasks wu)) as [t|] eqn:Ht; simpl.
  - unfold getitem. rewrite lookup_make_nj_tasks.
    case_decide; simpl; [done|]. intros [= <-]. right. by exists t.
  - intros [= <-]. left. split; [|done]. by apply last_None.
Qed.

Lemma first_task_expr_Raise (ub : Z) (l : list Task) (wu : WorkUnit) (e : exn) :
  first_task_expr (make_nj_tasks ub l) wu = Raise e →
  (tasks wu = [] ∧ e = IndexError)
  ∨ (∃ t, head (tasks wu) = Some t ∧ (t ∉ l) ∧ e = KeyError).
Proof.
  unfold first_task_expr, first_item.
  destruct (tasks wu) as [|t ts] eqn:Ht; simpl.
  - intros [= <-]. by left.
  - unfold getitem. rewrite lookup_make_nj_tasks.
    case_decide; simpl; [done|]. intros [= <-]. right. by exists t.
Qed.

(** For a work unit of the call the two lookups can only miss on an empty
    task list. *)
Lemma completion_expr_Raise_own (ub : Z) (wus : list WorkUnit) (wu : WorkUnit)
    (e : exn) :
  wu ∈ wus →
  completion_expr (make_nj_tasks ub (all_tasks_of wus)) wu = Raise e →
  tasks wu = [] ∧ e = IndexError.
Proof.
  intros Hwu [?|(t & Ht & Hnin & _)]%completion_expr_Raise; [done|].
  destruct Hnin. apply elem_of_all_tasks. exists wu.
  split; [done|]. by apply last_elem_of.
Qed.

Lemma first_task_expr_Raise_own (ub : Z) (wus : list WorkUnit) (wu : WorkUnit)
    (e : exn) :
  wu ∈ wus →
  first_task_expr (make_nj_tasks ub (all_tasks_of wus)) wu = Raise e →
  tasks wu = [] ∧ e = IndexError.
Proof.
  intros Hwu [?|(t & Ht & Hnin & _)]%first_task_expr_Raise; [done|].
  destruct Hnin. apply elem_of_all_tasks. exists wu.
  split; [done|]. by apply head_elem_of.
Qed.

Lemma bind_Raise {A B} (m : result A) (f : A → result B) (e : exn) :
  m ≫= f = Raise e ↔ m = Raise e ∨ ∃ x, m = Ok x ∧ f x = Raise e.
Proof.
  destruct m as [x|e']; simpl.
  - split; [intros Hf; right; by exists x | by intros [?|(x' & [= ->] & ?)]].
  - split; [intros [= ->]; by left | by intros [[= ->]|(x' & ? & _)]].
Qed.

Lemma dependency_pair_Raise (ub : Z) (wus : list WorkUnit)
    (wu parent : WorkUnit) (e : exn) :
  wu ∈ wus →
  dependency_pair (make_nj_tasks ub (all_tasks_of wus)) (wu, parent) = Raise e →
  (tasks parent = [] ∧ e = IndexError)
  ∨ (∃ t, last (tasks parent) = Some t ∧ (t ∉ all_tasks_of wus) ∧ e = KeyError)
  ∨ (tasks wu = [] ∧ e = IndexError).
Proof.
  intros Hwu. unfold dependency_pair. rewrite bind_Raise.
  intros [Hc|(x & _ & Hf)].
  - apply completion_expr_Raise in Hc as [?|?]; auto.
  - apply bind_Raise in Hf as [Hf|(y & _ & ?)]; [|done].
    apply first_task_expr_Raise_own in Hf; auto.
Qed.

Lemma pin_constraints_Raise (ub : Z) (wus : list WorkUnit) (e : exn) :
  pin_constraints (make_nj_tasks ub (all_tasks_of wus)) wus = Raise e →
  e = IndexError
  ∧ ∃ wu, wu ∈ wus ∧ tasks wu = [] ∧ is_Some (scheduled_start wu).
Proof.
  intros ([wu s] & [Hwu Hs]%elem_of_pinned & Hp)%mapM_Raise.
  unfold pin_constraint in Hp. apply bind_Raise in Hp as [Hf|(y & _ & ?)]; [|done].
  apply first_task_expr_Raise_own in Hf as [Ht ->]; [|done].
  split; [done|]. exists wu. by rewrite Hs.
Qed.

Lemma objective_Raise (ub : Z) (wus : list WorkUnit) (opt : bool) (e : exn) :
  objective (make_nj_tasks ub (all_tasks_of wus)) wus opt = Raise e →
  e = IndexError ∧ ∃ wu, wu ∈ wus ∧ tasks wu = [].
Proof.
  unfold objective. destruct opt.
  - rewrite bind_Raise. intros [Hp|(pen & _ & Hc)].
    + apply mapM_Raise in Hp as ([wu d] & [Hwu _]%elem_of_due_dated & Hp).
      unfold tardiness_term in Hp.
      apply bind_Raise in Hp as [Hp|(y & _ & ?)]; [|done].
      apply completion_expr_Raise_own in Hp as [Ht ->]; [|done]. eauto.
    + apply bind_Raise in Hc as [Hc|(y & _ & ?)]; [|done].
      apply mapM_Raise in Hc as (wu & Hwu & Hc).
      apply completion_expr_Raise_own in Hc as [Ht ->]; [|done]. eauto.
  - rewrite bind_Raise. intros [Hp|(y & _ & ?)]; [|done].
    apply mapM_Raise in Hp as ([wu d] & [Hwu _]%elem_of_due_dated & Hp).
    unfold deadline_constraint in Hp.
    apply bind_Raise in Hp as [Hp|(y & _ & ?)]; [|done].
    apply completion_expr_Raise_own in Hp as [Ht ->]; [|done]. eauto.
Qed.

(** Where the builder can stop. *)
Lemma build_model_Raise (wus : list WorkUnit) (ub : Z) (opt : bool) (e : exn) :
  build_model wus ub opt = Raise e ↔
  dependency_constraints (make_nj_tasks ub (all_tasks_of wus)) wus = Raise e
  ∨ (∃ deps,
       dependency_constraints (make_nj_tasks ub (all_tasks_of wus)) wus = Ok deps
       ∧ (pin_constraints (make_nj_tasks ub (all_tasks_of wus)) wus = Raise e
          ∨ ∃ pins,
              pin_constraints (make_nj_tasks ub (all_tasks_of wus)) wus = Ok pins
              ∧ objective (make_nj_tasks ub (all_tasks_of wus)) wus opt
                = Raise e)).
Proof.
  unfold build_model.
  rewrite resource_contention_Ok, chain_constraints_Ok, custom_constraints_Ok.
  simpl.
  destruct (dependency_constraints _ wus) as [deps|e1]; simpl.
  - destruct (pin_constraints _ wus) as [pins|e2]; simpl.
    + destruct (objective _ wus opt) as [goal|e3]; simpl.
      * split; [done|]. intros [?|(? & _ & [?|(? & _ & ?)])]; done.
      * split.
        -- intros [= ->]. right. eexists. split; [done|]. right. eauto.
        -- intros [?|(? & _ & [?|(? & _ & [= ->])])]; done.
    + split.
      * intros [= ->]. right. eexists. split; [done|]. by left.
      * intros [?|(? & _ & [[= ->]|(? & ? & _)])]; done.
  - split; [intros [= ->]; by left|].
    intros [[= ->]|(? & ? & _)]; done.
Qed.

(** X5: a work unit whose parent was not passed to the call.  When every
    work unit and every parent has tasks, and the last task of some parent
    belongs to no work unit of the call, the lookup of its start variable
    misses: the call raises [KeyError] and writes no schedule. *)
Theorem unscheduled_parent_KeyError
    (engine : string → Z → list nj.Item → result (option nj.Valuation))
    (wus : list WorkUnit) (ub : Z) (opt : bool) (time_limit : Z)
    (solver_method : string) (σ : Store) :
  (∀ wu, wu ∈ wus → tasks wu ≠ []) →
  (∀ wu parent, wu ∈ wus → parent ∈ parents wu → tasks parent ≠ []) →
  (∃ wu parent t, wu ∈ wus ∧ parent ∈ parents wu
                  ∧ last (tasks parent) = Some t ∧ t ∉ all_tasks_of wus) →
  build_model wus ub opt = Raise KeyError
  ∧ numberjack_scheduler engine wus ub opt time_limit solver_method σ
    = (Raise KeyError, σ).
Proof.
  intros Hne Hpne (wu & p & t & Hwu & Hp & Ht & Hnin).
  assert (Hb : build_model wus ub opt = Raise KeyError).
  { apply build_model_Raise. left. apply mapM_Raise_one.
    - intros [wu' p'] [Hwu' Hp']%elem_of_dependency_edges.
      destruct (dependency_pair _ (wu', p')) as [c|e] eqn:Hd; [eauto|left].
      apply (dependency_pair_Raise ub wus wu' p' e Hwu') in Hd
        as [[He _]|[(? & _ & _ & ->)|[He _]]].
      + by destruct (Hpne wu' p').
      + done.
      + by destruct (Hne wu').
    - exists (wu, p). split; [by apply elem_of_dependency_edges|].
      unfold dependency_pair, completion_expr, last_item. rewrite Ht. simpl.
      unfold getitem. rewrite lookup_make_nj_tasks, decide_False by done.
      done. }
  split; [done|]. unfold numberjack_scheduler. by rewrite Hb.
Qed.

Lemma unscheduled_parent_KeyError_witness :
  numberjack_scheduler (Tight.checking_engine Example.val) Orphan.plant 20 true
    5 "Mistral" ∅
  = (Raise KeyError, ∅).
Proof.
  refine (proj2 (unscheduled_parent_KeyError (Tight.checking_engine Example.val)
                   Orphan.plant 20 true 5 "Mistral" ∅ _ _ _)).
  - intros wu Hwu. apply list_elem_of_singleton in Hwu as ->. discriminate.
  - intros wu p Hwu Hp. apply list_elem_of_singleton in Hwu as ->.
    apply list_elem_of_singleton in Hp as ->. discriminate.
  - exists Example.B, Example.A, Example.a2.
    split; [left|]. split; [left|]. split; [reflexivity|].
    vm_compute. intros H. apply list_elem_of_singleton in H. discriminate H.
Defined.

(** X6: in optimize mode a work unit without tasks always stops the
    builder, since the completion time of every work unit is summed: the
    call raises and writes no schedule.  The exception is [IndexError]
    unless a parent that was not passed to the call raised [KeyError]
    before. *)
Theorem empty_work_unit_optimize
    (engine : string → Z → list nj.Item → result (option nj.Valuation))
    (wus : list WorkUnit) (ub : Z) (time_limit : Z) (solver_method : string)
    (σ : Store) :
  (∃ wu, wu ∈ wus ∧ tasks wu = []) →
  ∃ e,
    build_model wus ub true = Raise e
    ∧ (e = IndexError ∨ e = KeyError)
    ∧ ((∀ wu parent t, wu ∈ wus → parent ∈ parents wu →
          last (tasks parent) = Some t → t ∈ all_tasks_of wus) →
       e = IndexError)
    ∧ numberjack_scheduler engine wus ub true time_limit solver_method σ
      = (Raise e, σ).
Proof.
  intros (wu & Hwu & Hempty).
  destruct (build_model wus ub true) as [b|e] eqn:Hb.
  - apply build_model_core in Hb as (core & goal & _ & Hgo & _).
    apply objective_optimize_Ok in Hgo as (pen & compl & _ & Hcompl & _).
    destruct (mapM_Ok_elem _ _ _ wu Hcompl Hwu) as (c & Hc & _).
    apply completion_expr_Ok in Hc as (t & Ht & _). by rewrite Hempty in Ht.
  - exists e. split; [done|].
    assert (Hcases : (e = IndexError ∨ e = KeyError)
              ∧ ((∀ wu parent t, wu ∈ wus → parent ∈ parents wu →
                    last (tasks parent) = Some t → t ∈ all_tasks_of wus) →
                 e = IndexError)).
    { apply build_model_Raise in Hb
        as [Hd|(deps & _ & [Hp|(pins & _ & Ho)])].
      - apply mapM_Raise in Hd as ([w p] & [Hw Hp]%elem_of_dependency_edges & Hd).
        apply (dependency_pair_Raise ub wus w p e Hw) in Hd
          as [[_ ->]|[(t & Ht & Hnin & ->)|[_ ->]]]; [auto| |auto].
        split; [auto|]. intros Hin. destruct Hnin. by eapply Hin.
      - apply pin_constraints_Raise in Hp as [-> _]. auto.
      - apply objective_Raise in Ho as [-> _]. auto. }
    destruct Hcases as [H1 H2]. split; [done|]. split; [done|].
    unfold numberjack_scheduler. by rewrite Hb.
Qed.

Lemma empty_work_unit_optimize_witness :
  numberjack_scheduler (Tight.checking_engine Example.val)
    (Blank.W :: Example.plant) 20 true 5 "Mistral" ∅
  = (Raise IndexError, ∅).
Proof.
  destruct (empty_work_unit_optimize (Tight.checking_engine Example.val)
              (Blank.W :: Example.plant) 20 5 "Mistral" ∅)
    as (e & Hb & _ & _ & Hrun).
  - exists Blank.W. split; [left | reflexivity].
  - assert (He : Raise e = Raise (A:=Built) IndexError)
      by (rewrite <- Hb; vm_compute; reflexivity).
    injection He as ->. exact Hrun.
Defined.



(** X14: the ways the call fails.  The builder raises [IndexError] or
    [KeyError] and nothing else; the engine's own failure is passed on as it
    is; the engine's answer "no solution" becomes the one [ValueError].
    Writing the schedule back never raises. *)
Theorem failure_taxonomy
    (engine : string → Z → list nj.Item → result (option nj.Valuation))
    (wus : list WorkUnit) (ub : Z) (opt : bool) (time_limit : Z)
    (solver_method : string) (σ σ' : Store) (e : exn) :
  numberjack_scheduler engine wus ub opt time_limit solver_method σ
  = (Raise e, σ') →
  (build_model wus ub opt = Raise e ∧ (e = IndexError ∨ e = KeyError))
  ∨ ∃ b, build_model wus ub opt = Ok b
         ∧ (engine solver_method time_limit (model b) = Raise e
            ∨ (engine solver_method time_limit (model b) = Ok None
               ∧ e = no_solution)).
Proof.
  unfold numberjack_scheduler.
  destruct (build_model wus ub opt) as [b|e0] eqn:Hb.
  - intros Hrun. right. exists b. split; [done|].
    destruct (engine solver_method time_limit (model b)) as [[a|]|e1] eqn:He.
    + pose proof Hb as (core & goal & _ & _ & Hbeq)%build_model_core.
      rewrite Hbeq in Hrun.
      destruct (materialize_lookup ub (all_tasks_of wus)
                  ((nj.Post <$> core) ++ goal) a σ) as (σ1 & Hm & _).
      by rewrite Hm in Hrun.
    + injection Hrun as <- _. by right.
    + injection Hrun as <- _. by left.
  - intros [= -> _]. left. split; [done|].
    apply build_model_Raise in Hb as [Hd|(deps & _ & [Hp|(pins & _ & Ho)])].
    + apply mapM_Raise in Hd as ([w p] & [Hw Hp]%elem_of_dependency_edges & Hd).
      apply (dependency_pair_Raise ub wus w p e Hw) in Hd
        as [[_ ->]|[(t & _ & _ & ->)|[_ ->]]]; auto.
    + apply pin_constraints_Raise in Hp as [-> _]. auto.
    + apply objective_Raise in Ho as [-> _]. auto.
Qed.

Lemma failure_taxonomy_witness :
  numberjack_scheduler (Tight.checking_engine Example.val) Tight.plant 20 false
    5 "Mistral" ∅ = (Raise no_solution, ∅)
  ∧ ((build_model Tight.plant 20 false = Raise no_solution
      ∧ (no_solution = IndexError ∨ no_solution = KeyError))
     ∨ ∃ b, build_model Tight.plant 20 false = Ok b
            ∧ (Tight.checking_engine Example.val "Mistral" 5 (model b)
               = Raise no_solution
               ∨ (Tight.checking_engine Example.val "Mistral" 5 (model b)
                  = Ok None ∧ no_solution = no_solution))).
Proof.
  assert (Hrun : numberjack_scheduler (Tight.checking_engine Example.val)
                   Tight.plant 20 false 5 "Mistral" ∅ = (Raise no_solution, ∅))
    by (vm_compute; reflexivity).
  split; [exact Hrun|].
  exact (failure_taxonomy _ _ _ _ _ _ _ _ _ Hrun).
Defined.

(** X4 runs on the example. *)
Lemma build_model_total_witness :
  ∃ b, build_model Example.plant 20 true = Ok b.
Proof.
  apply (build_model_total Example.plant 20 true).
  - intros wu Hwu.
    apply elem_of_cons in Hwu as [->|Hwu]; [discriminate|].
    apply list_elem_of_singleton in Hwu as ->. discriminate.
  - intros wu p Hwu Hp.
    apply elem_of_cons in Hwu as [->|Hwu]; [by apply elem_of_nil in Hp|].
    apply list_elem_of_singleton in Hwu as ->.
    apply list_elem_of_singleton in Hp as ->.
    exists Example.a2. split; [reflexivity|]. vm_compute. right. left.
Defined.

(** ** What a solution looks like *)

Lemma in_domain_start (a : nj.Valuation) (ub : Z) (t : Task) :
  nj.in_domain a (nj.start_var (nj_task_of ub t)) = true
  ↔ 0 <= start_of a t ∧ start_of a t + duration t <= ub.
Proof.
  unfold nj.in_domain, nj.get_value, start_of. simpl.
  rewrite andb_true_iff, !Z.leb_le. lia.
Qed.

(** An adjacent pair of a work unit: both starts are in their domains and
    the first task ends before the second starts. *)
Lemma chain_adjacent_sound (wus : list WorkUnit) (ub : Z) (opt : bool)
    (b : Built) (a : nj.Valuation) (wu : WorkUnit) (i : nat) (t t' : Task) :
  build_model wus ub opt = Ok b →
  nj.satisfies a (model b) = true →
  wu ∈ wus → tasks wu !! i = Some t → tasks wu !! S i = Some t' →
  (0 <= start_of a t ∧ start_of a t + duration t <= ub)
  ∧ (0 <= start_of a t' ∧ start_of a t' + duration t' <= ub)
  ∧ start_of a t + duration t <= start_of a t'.
Proof.
  intros Hb Ha Hwu Ht Ht'.
  assert (Hin : nj.Post (chain_constr ub (t, t')) ∈ model b).
  { apply (elem_of_model wus ub opt b _ Hb). right; left.
    apply list_elem_of_fmap_2, elem_of_flat_map. exists wu. split; [done|].
    apply elem_of_adjacent_pairs. eauto. }
  destruct (satisfies_Post a _ _ Ha Hin) as [Hd Hh].
  unfold chain_constr in Hd, Hh. cbn [fst snd] in Hd, Hh.
  cbn [nj.constr_dom nj.expr_dom end_expr] in Hd.
  rewrite !andb_true_iff, !in_domain_start in Hd.
  destruct Hd as [[Hd1 _] Hd2]. split; [done|]. split; [done|].
  simpl in Hh. by apply Z.leb_le in Hh.
Qed.

Lemma dependency_sound (wus : list WorkUnit) (ub : Z) (opt : bool)
    (b : Built) (a : nj.Valuation) (wu parent : WorkUnit) :
  build_model wus ub opt = Ok b →
  nj.satisfies a (model b) = true →
  wu ∈ wus → parent ∈ parents wu →
  ∃ tl tf, last (tasks parent) = Some tl ∧ head (tasks wu) = Some tf
           ∧ start_of a tl + duration tl <= start_of a tf.
Proof.
  intros Hb Ha Hwu Hp.
  pose proof Hb as (cu & deps & pins & goal & _ & Hde & _ & _ & Hbeq)%build_model_inv.
  assert (He : (wu, parent) ∈ dependency_edges wus)
    by by apply elem_of_dependency_edges.
  destruct (mapM_Ok_elem _ _ _ _ Hde He) as (c & Hc & Hcin).
  apply dependency_pair_Ok in Hc as (tl & tf & Hl & _ & Hf & _ & ->).
  exists tl, tf. split; [done|]. split; [done|].
  assert (Hin : nj.Post (dependency_constr ub tl tf) ∈ model b).
  { apply (elem_of_model wus ub opt b _ Hb). do 3 right. left.
    exists deps. split; [by rewrite Hbeq|done]. }
  destruct (satisfies_Post a _ _ Ha Hin) as [_ Hh].
  simpl in Hh. by apply Z.leb_le in Hh.
Qed.

Lemma last_lookup_None {A} (l : list A) (i : nat) (x : A) :
  l !! i = Some x → l !! S i = None → last l = Some x.
Proof.
  intros Hi Hn. rewrite last_lookup.
  apply lookup_lt_Some in Hi as Hlt. apply lookup_ge_None in Hn.
  replace (pred (length l)) with i by lia. done.
Qed.

(** The items the optimize mode appends hold under a solution. *)
Lemma surrogate_item_ok (wus : list WorkUnit) (ub : Z) (b : Built)
    (a : nj.Valuation) :
  build_model wus ub true = Ok b →
  nj.satisfies a (model b) = true →
  ∃ pen compl,
    mapM (tardiness_term (make_nj_tasks ub (all_tasks_of wus))) (due_dated wus)
    = Ok pen
    ∧ mapM (completion_expr (make_nj_tasks ub (all_tasks_of wus))) wus = Ok compl
    ∧ nj.item_ok a (nj.Post (nj.CGt (nj.EVar C_max)
                       (nj.EAdd (nj.py_sum pen) (nj.py_sum compl)))) = true.
Proof.
  intros (core & goal & _ & Hgo & ->)%build_model_core.
  apply objective_optimize_Ok in Hgo as (pen & compl & Hpen & Hcompl & ->).
  simpl. intros Ha. exists pen, compl. split; [done|]. split; [done|].
  unfold nj.satisfies in Ha. rewrite forallb_app in Ha.
  apply andb_true_iff in Ha as [_ Ha]. cbn [forallb] in Ha.
  by apply andb_true_iff in Ha as [Ha _].
Qed.

(** In optimize mode the last task of every work unit is summed into the
    surrogate's bound, so its start is in its domain. *)
Lemma last_task_in_horizon (wus : list WorkUnit) (ub : Z) (b : Built)
    (a : nj.Valuation) (wu : WorkUnit) (t : Task) :
  build_model wus ub true = Ok b →
  nj.satisfies a (model b) = true →
  wu ∈ wus → last (tasks wu) = Some t →
  0 <= start_of a t ∧ start_of a t + duration t <= ub.
Proof.
  intros Hb Ha Hwu Hlast.
  destruct (surrogate_item_ok wus ub b a Hb Ha) as (pen & compl & _ & Hc & Hok).
  destruct (mapM_Ok_elem _ _ _ wu Hc Hwu) as (e & He & Hin).
  apply completion_expr_Ok in He as (t' & Ht & _ & ->).
  rewrite Hlast in Ht. injection Ht as <-.
  simpl in Hok. rewrite !andb_true_iff, !expr_dom_py_sum in Hok.
  destruct Hok as [(_ & _ & Hdom) _].
  rewrite forallb_forall in Hdom.
  apply list_elem_of_In, Hdom in Hin. simpl in Hin.
  rewrite andb_true_r in Hin. by apply in_domain_start in Hin.
Qed.

(** X8: in optimize mode a solution keeps every task of every work unit
    inside the horizon: each task starts at 0 or later and ends at
    [upper_bound] or earlier. *)
Theorem tasks_within_horizon (wus : list WorkUnit) (ub : Z) (b : Built) :
  build_model wus ub true = Ok b →
  ∀ a, nj.satisfies a (model b) = true →
    ∀ task, task ∈ all_tasks_of wus →
      0 <= start_of a task ∧ start_of a task + duration task <= ub.
Proof.
  intros Hb a Ha task (wu & Hwu & Ht)%elem_of_all_tasks.
  apply list_elem_of_lookup in Ht as [i Hi].
  destruct (tasks wu !! S i) as [t'|] eqn:Hnext.
  - by destruct (chain_adjacent_sound wus ub true b a wu i task t' Hb Ha Hwu Hi
                   Hnext) as [? _].
  - apply (last_task_in_horizon wus ub b a wu task Hb Ha Hwu).
    by eapply last_lookup_None.
Qed.

Lemma tasks_within_horizon_witness :
  build_model Example.plant 20 true = Ok Example.optimized
  ∧ nj.satisfies Example.val (model Example.optimized) = true
  ∧ 0 <= start_of Example.val Example.b1
  ∧ start_of Example.val Example.b1 + duration Example.b1 <= 20.
Proof.
  assert (Hb : build_model Example.plant 20 true = Ok Example.optimized)
    by (vm_compute; reflexivity).
  assert (Ha : nj.satisfies Example.val (model Example.optimized) = true)
    by (vm_compute; reflexivity).
  split; [exact Hb|]. split; [exact Ha|].
  apply (tasks_within_horizon Example.plant 20 Example.optimized Hb
           Example.val Ha Example.b1).
  vm_compute. right. right. left.
Defined.

(** X9: the tasks of a work unit run in list order, not only neighbour after
    neighbour: when no task of the work unit has a negative duration, a task
    ends before any later task of the list starts. *)
Theorem chain_order (wus : list WorkUnit) (ub : Z) (opt : bool) (b : Built)
    (wu : WorkUnit) :
  build_model wus ub opt = Ok b →
  wu ∈ wus →
  (∀ t, t ∈ tasks wu → 0 <= duration t) →
  ∀ a, nj.satisfies a (model b) = true →
    ∀ (i j : nat) t u, (i < j)%nat →
      tasks wu !! i = Some t → tasks wu !! j = Some u →
      start_of a t + duration t <= start_of a u.
Proof.
  intros Hb Hwu Hdur a Ha i j t u Hij Ht.
  replace j with (i + S (j - S i))%nat by lia.
  generalize (j - S i)%nat. clear j Hij. intros k. revert u.
  induction k as [|k IH]; intros u Hu.
  - replace (i + 1)%nat with (S i) in Hu by lia.
    by destruct (chain_adjacent_sound wus ub opt b a wu i t u Hb Ha Hwu Ht Hu)
      as (_ & _ & ?).
  - destruct (lookup_lt_is_Some_2 (tasks wu) (i + S k)) as [v Hv].
    { apply lookup_lt_Some in Hu. lia. }
    replace (i + S (S k))%nat with (S (i + S k)) in Hu by lia.
    destruct (chain_adjacent_sound wus ub opt b a wu _ v u Hb Ha Hwu Hv Hu)
      as (_ & _ & Hstep).
    pose proof (IH v Hv) as Hprev.
    assert (0 <= duration v) by (apply Hdur, list_elem_of_lookup; eauto).
    lia.
Qed.

Lemma chain_order_witness :
  build_model Example.plant 20 true = Ok Example.optimized
  ∧ nj.satisfies Example.val (model Example.optimized) = true
  ∧ start_of Example.val Example.a1 + duration Example.a1
    <= start_of Example.val Example.a2.
Proof.
  assert (Hb : build_model Example.plant 20 true = Ok Example.optimized)
    by (vm_compute; reflexivity).
  assert (Ha : nj.satisfies Example.val (model Example.optimized) = true)
    by (vm_compute; reflexivity).
  split; [exact Hb|]. split; [exact Ha|].
  refine (chain_order Example.plant 20 true Example.optimized Example.A Hb _ _
            Example.val Ha 0%nat 1%nat Example.a1 Example.a2 _ eq_refl eq_refl).
  - left.
  - intros t Ht. apply elem_of_cons in Ht as [->|Ht]; [simpl; lia|].
    apply list_elem_of_singleton in Ht as ->. simpl. lia.
  - lia.
Defined.

(** A list of tasks in which every task ends before the next one starts
    spans at least the sum of its durations. *)
Lemma chained_span (a : nj.Valuation) (l : list Task) (first last_task : Task) :
  (∀ (i : nat) t t', l !! i = Some t → l !! S i = Some t' →
                     start_of a t + duration t <= start_of a t') →
  head l = Some first → last l = Some last_task →
  start_of a first + total (duration <$> l) <= end_of a last_task.
Proof.
  revert first. induction l as [|x l IH]; intros first Hadj Hf Hl; [done|].
  injection Hf as ->. destruct l as [|y l].
  - injection Hl as ->. unfold end_of. rewrite fmap_cons, total_cons.
    unfold total. simpl. lia.
  - rewrite fmap_cons, total_cons.
    pose proof (Hadj 0%nat first y eq_refl eq_refl) as Hxy.
    assert (Hrec : start_of a y + total (duration <$> y :: l) <= end_of a last_task).
    { apply IH; [|done|by rewrite last_cons_cons in Hl].
      intros i t t' Ht Ht'. by apply (Hadj (S i)). }
    lia.
Qed.

(** X10: a work unit takes its time.  In a solution the completion of a
    work unit is no earlier than the start of its first task plus the sum of
    the durations of its tasks, and no earlier than the completion of any of
    its parents plus that sum. *)
Theorem work_unit_span (wus : list WorkUnit) (ub : Z) (opt : bool) (b : Built)
    (wu : WorkUnit) :
  build_model wus ub opt = Ok b →
  wu ∈ wus →
  ∀ a, nj.satisfies a (model b) = true →
    (∀ first_task, head (tasks wu) = Some first_task →
       start_of a first_task + total (duration <$> tasks wu)
       <= completion_time a wu)
    ∧ ∀ parent, parent ∈ parents wu →
        completion_time a parent + total (duration <$> tasks wu)
        <= completion_time a wu.
Proof.
  intros Hb Hwu a Ha.
  assert (Hspan : ∀ first_task, head (tasks wu) = Some first_task →
            start_of a first_task + total (duration <$> tasks wu)
            <= completion_time a wu).
  { intros tf Hf. unfold completion_time.
    destruct (last (tasks wu)) as [tl|] eqn:Hl.
    - apply chained_span; [|done..]. intros i t t' Ht Ht'.
      by destruct (chain_adjacent_sound wus ub opt b a wu i t t' Hb Ha Hwu Ht Ht')
        as (_ & _ & ?).
    - apply last_None in Hl. by rewrite Hl in Hf. }
  split; [done|]. intros p Hp.
  destruct (dependency_sound wus ub opt b a wu p Hb Ha Hwu Hp)
    as (tl & tf & Hl & Hf & Hle).
  pose proof (Hspan tf Hf). unfold completion_time at 1. rewrite Hl.
  unfold end_of. lia.
Qed.

Lemma work_unit_span_witness :
  build_model Example.plant 20 true = Ok Example.optimized
  ∧ nj.satisfies Example.val (model Example.optimized) = true
  ∧ completion_time Example.val Example.A + total (duration <$> tasks Example.B)
    <= completion_time Example.val Example.B.
Proof.
  assert (Hb : build_model Example.plant 20 true = Ok Example.optimized)
    by (vm_compute; reflexivity).
  assert (Ha : nj.satisfies Example.val (model Example.optimized) = true)
    by (vm_compute; reflexivity).
  split; [exact Hb|]. split; [exact Ha|].
  refine (proj2 (work_unit_span Example.plant 20 true Example.optimized
                   Example.B Hb _ Example.val Ha) Example.A _).
  - right. left.
  - left.
Defined.

(** ** Inputs that no schedule can satisfy *)

Lemma lookup_combinations2 {A} (l : list A) (i j : nat) (x y : A) :
  (i < j)%nat → l !! i = Some x → l !! j = Some y → (x, y) ∈ combinations2 l.
Proof.
  revert i j. induction l as [|z l IH]; intros i j Hij Hi Hj; [done|].
  rewrite combinations2_cons, elem_of_app.
  destruct i as [|i], j as [|j]; try lia.
  - injection Hi as ->. left. apply list_elem_of_fmap_2.
    apply list_elem_of_lookup. eauto.
  - right. apply (IH i j); [lia|done..].
Qed.

(** The disjunction of a pair of positions on a resource of capacity other
    than 1 is in the model. *)
Lemma pool_constr_posted (wus : list WorkUnit) (ub : Z) (opt : bool)
    (b : Built) (r : Resource) (t u : Task) :
  build_model wus ub opt = Ok b →
  capacity r ≠ 1 →
  (t, u) ∈ combinations2 (all_tasks_of wus) →
  requires r t → requires r u →
  nj.Post (pool_constr_of ub r (t, u)) ∈ model b.
Proof.
  intros Hb Hcap Hp Ht Hu.
  apply (elem_of_model wus ub opt b _ Hb). left. exists r. split.
  - apply elem_of_all_resources. exists t. split; [|done].
    by apply elem_of_combinations2 in Hp as [? _].
  - unfold contention_of. rewrite decide_False by done.
    apply list_elem_of_fmap_2, list_elem_of_filter. by split.
Qed.

(** X11: a capacity below 1 is not refused, it goes the way of the pooled
    resources.  As soon as two tasks of the call require such a resource,
    their slot variables have an empty domain and no valuation satisfies the
    model. *)
Theorem empty_pool_infeasible (wus : list WorkUnit) (ub : Z) (opt : bool)
    (b : Built) (r : Resource) (t u : Task) :
  build_model wus ub opt = Ok b →
  capacity r < 1 →
  t ∈ all_tasks_of wus → u ∈ all_tasks_of wus → t ≠ u →
  requires r t → requires r u →
  ∀ a, nj.satisfies a (model b) = false.
Proof.
  intros Hb Hcap Ht Hu Hne Hrt Hru a.
  destruct (nj.satisfies a (model b)) eqn:Ha; [|done]. exfalso.
  destruct (elem_of_combinations2_ne (all_tasks_of wus) t u Ht Hu Hne) as [Hp|Hp].
  - assert (Hin := pool_constr_posted wus ub opt b r t u Hb ltac:(lia) Hp Hrt Hru).
    destruct (satisfies_Post a _ _ Ha Hin) as [Hd Hh].
    destruct (pool_constr_sound a ub r t u Hd Hh) as (_ & ? & _). lia.
  - assert (Hin := pool_constr_posted wus ub opt b r u t Hb ltac:(lia) Hp Hru Hrt).
    destruct (satisfies_Post a _ _ Ha Hin) as [Hd Hh].
    destruct (pool_constr_sound a ub r u t Hd Hh) as (_ & ? & _). lia.
Qed.

Lemma empty_pool_infeasible_witness :
  build_model [Broken.W] 20 false = Ok Broken.built
  ∧ ∀ a, nj.satisfies a (model Broken.built) = false.
Proof.
  assert (Hb : build_model [Broken.W] 20 false = Ok Broken.built)
    by (vm_compute; reflexivity).
  split; [exact Hb|].
  refine (empty_pool_infeasible [Broken.W] 20 false Broken.built Broken.Z0
            Broken.p1 Broken.p2 Hb _ _ _ _ _ _).
  - simpl. lia.
  - vm_compute. left.
  - vm_compute. right. left.
  - discriminate.
  - left.
  - left.
Defined.

(** X12: the pairs are pairs of positions, so a task object listed twice is
    paired with itself.  If it has a positive duration and requires a
    resource of capacity other than 1, the pair asks the task to end before
    it starts or to sit on two different slots: no valuation satisfies the
    model. *)
Theorem repeated_task_infeasible (wus : list WorkUnit) (ub : Z) (opt : bool)
    (b : Built) (r : Resource) (t : Task) (i j : nat) :
  build_model wus ub opt = Ok b →
  (i < j)%nat →
  all_tasks_of wus !! i = Some t → all_tasks_of wus !! j = Some t →
  requires r t → capacity r ≠ 1 → 0 < duration t →
  ∀ a, nj.satisfies a (model b) = false.
Proof.
  intros Hb Hij Hi Hj Hr Hcap Hdur a.
  destruct (nj.satisfies a (model b)) eqn:Ha; [|done]. exfalso.
  pose proof (lookup_combinations2 _ i j t t Hij Hi Hj) as Hp.
  assert (Hin := pool_constr_posted wus ub opt b r t t Hb Hcap Hp Hr Hr).
  destruct (satisfies_Post a _ _ Ha Hin) as [Hd Hh].
  destruct (pool_constr_sound a ub r t t Hd Hh) as ([Hor|Hslot] & _); [|done].
  unfold disjoint_in_time, end_of in Hor. lia.
Qed.

Lemma repeated_task_infeasible_witness :
  build_model [Shared.W1; Shared.W2] 20 false = Ok Shared.built
  ∧ ∀ a, nj.satisfies a (model Shared.built) = false.
Proof.
  assert (Hb : build_model [Shared.W1; Shared.W2] 20 false = Ok Shared.built)
    by (vm_compute; reflexivity).
  split; [exact Hb|].
  refine (repeated_task_infeasible [Shared.W1; Shared.W2] 20 false Shared.built
            Example.P Shared.t 0 1 Hb _ eq_refl eq_refl _ _ _).
  - lia.
  - left.
  - discriminate.
  - simpl. lia.
Defined.

(** ** The two modes *)

(** X13: whenever the builder returns a model in optimize mode it returns
    one in feasibility mode, and a solution of the former that completes
    every due-dated work unit strictly before its due time is a solution of
    the latter. *)
Theorem on_time_solution_is_feasible (wus : list WorkUnit) (ub : Z)
    (bo : Built) :
  build_model wus ub true = Ok bo →
  ∃ bf,
    build_model wus ub false = Ok bf
    ∧ ∀ a, nj.satisfies a (model bo) = true →
        (∀ wu d, wu ∈ wus → due_time wu = Some d → completion_time a wu < d) →
        nj.satisfies a (model bf) = true.
Proof.
  intros Hbo. pose proof Hbo as (core & goal & Hcore & Hgo & Hbeq)%build_model_core.
  apply objective_optimize_Ok in Hgo as (pen & compl & Hpen & Hcompl & ->).
  destruct (mapM_is_Ok (deadline_constraint (make_nj_tasks ub (all_tasks_of wus)))
              (due_dated wus)) as [dls Hdls].
  { intros [wu d] Hin. destruct (mapM_Ok_elem _ _ _ _ Hpen Hin) as (e & He & _).
    apply tardiness_term_Ok in He as (t & Ht & Hint & _).
    eexists. apply deadline_constraint_Ok. eauto. }
  eexists. split.
  { apply build_model_core. exists core, (nj.Post <$> dls).
    split; [done|]. split; [|done]. apply objective_feasible_Ok. eauto. }
  simpl. intros a Ha Hontime.
  assert (Hc : nj.satisfies a (nj.Post <$> core) = true).
  { rewrite Hbeq in Ha. simpl in Ha. unfold nj.satisfies in *.
    rewrite forallb_app in Ha. by apply andb_true_iff in Ha as [? _]. }
  unfold nj.satisfies in *. rewrite forallb_app, Hc. simpl.
  apply forallb_forall. intros it Hit%list_elem_of_In.
  apply list_elem_of_fmap in Hit as (c & -> & Hcin).
  apply list_elem_of_lookup in Hcin as [i Hi].
  apply mapM_Ok in Hdls.
  destruct (Forall2_lookup_r _ _ _ _ _ Hdls Hi) as ([wu d] & Hp & Hdl).
  apply deadline_constraint_Ok in Hdl as (t & Ht & _ & ->).
  assert (Hwd : wu ∈ wus ∧ due_time wu = Some d).
  { apply elem_of_due_dated, list_elem_of_lookup. eauto. }
  destruct Hwd as [Hwu Hd].
  pose proof (last_task_in_horizon wus ub bo a wu t Hbo Ha Hwu Ht) as Hdom.
  apply in_domain_start in Hdom.
  pose proof (Hontime wu d Hwu Hd) as Hlt.
  unfold completion_time in Hlt. rewrite Ht in Hlt.
  cbn [nj.item_ok nj.constr_dom nj.expr_dom end_expr]. rewrite Hdom.
  simpl. apply Z.ltb_lt. exact Hlt.
Qed.

Lemma on_time_solution_is_feasible_witness :
  build_model Example.plant 20 true = Ok Example.optimized
  ∧ nj.satisfies Example.val (model Example.optimized) = true
  ∧ ∃ bf, build_model Example.plant 20 false = Ok bf
          ∧ nj.satisfies Example.val (model bf) = true.
Proof.
  assert (Hb : build_model Example.plant 20 true = Ok Example.optimized)
    by (vm_compute; reflexivity).
  assert (Ha : nj.satisfies Example.val (model Example.optimized) = true)
    by (vm_compute; reflexivity).
  split; [exact Hb|]. split; [exact Ha|].
  destruct (on_time_solution_is_feasible Example.plant 20 Example.optimized Hb)
    as (bf & Hbf & Hsat).
  exists bf. split; [exact Hbf|]. apply (Hsat Example.val Ha).
  intros wu d Hwu Hd.
  apply elem_of_cons in Hwu as [->|Hwu].
  - injection Hd as <-. vm_compute. reflexivity.
  - apply list_elem_of_singleton in Hwu as ->. discriminate Hd.
Defined.

(** ** Calling again *)





(** ** The size of the model *)

Lemma length_flat_map {A B} (f : A → list B) (l : list A) :
  length (flat_map f l) = sum_list ((λ x, length (f x)) <$> l).
Proof.
  induction l as [|x l IH]; [done|]. simpl. by rewrite length_app, IH.
Qed.

Lemma length_concat_fmap {A B} (f : A → list B) (l : list A) :
  length (List.concat (f <$> l)) = sum_list ((λ x, length (f x)) <$> l).
Proof.
  induction l as [|x l IH]; [done|]. rewrite !fmap_cons.
  change (List.concat (f x :: (f <$> l))) with (f x ++ List.concat (f <$> l)).
  by rewrite length_app, IH.
Qed.

Lemma length_adjacent_pairs (wu : WorkUnit) :
  length (adjacent_pairs wu) = (length (tasks wu) - 1)%nat.
Proof.
  unfold adjacent_pairs. rewrite length_zip_with, length_drop. lia.
Qed.

Lemma length_contention_of (ub : Z) (l : list Task) (r : Resource) :
  length (contention_of ub l r) = contention_size l r.
Proof.
  unfold contention_of, contention_size. case_decide; [done|].
  rewrite length_fmap. unfold sharing. rewrite <- length_combinations2.
  f_equal. apply (filter_combinations2 (requires r)).
Qed.

(** X16: the number of items of the model.  Every resource of capacity 1
    adds one constraint, every other resource one per pair of tasks
    requiring it; a work unit adds one constraint per adjacent pair of
    tasks, per custom constraint and per parent, and one if its start is
    fixed; optimize mode adds two items, feasibility mode one per due time. *)
Theorem model_items_count (wus : list WorkUnit) (ub : Z) (opt : bool)
    (b : Built) :
  build_model wus ub opt = Ok b →
  length (model b) = model_size wus opt.
Proof.
  intros (custom & deps & pins & goal & Hcu & Hde & Hpi & Hgo & ->)%build_model_inv.
  simpl. rewrite length_app, length_fmap, !length_app.
  rewrite length_concat_fmap, length_fmap, length_flat_map.
  rewrite custom_constraints_Ok in Hcu. injection Hcu as <-.
  rewrite length_fmap, length_flat_map.
  apply mapM_Ok_length in Hde. apply mapM_Ok_length in Hpi.
  rewrite Hde, Hpi. unfold dependency_edges. rewrite length_flat_map.
  unfold model_size.
  assert (Hgoal : length goal
                  = if opt then 2%nat else length (due_dated wus)).
  { destruct opt.
    - by apply objective_optimize_Ok in Hgo as (? & ? & _ & _ & ->).
    - apply objective_feasible_Ok in Hgo as (dls & Hdls & ->).
      rewrite length_fmap. by apply mapM_Ok_length in Hdls. }
  rewrite Hgoal.
  assert (H1 : (λ x, length (contention_of ub (all_tasks_of wus) x))
               <$> make_all_resources (all_tasks_of wus)
               = contention_size (all_tasks_of wus)
                 <$> make_all_resources (all_tasks_of wus)).
  { apply list_fmap_ext. intros _ r _. apply length_contention_of. }
  assert (H2 : (λ x, length (adjacent_pairs x)) <$> wus
               = (λ wu, (length (tasks wu) - 1)%nat) <$> wus).
  { apply list_fmap_ext. intros _ wu _. apply length_adjacent_pairs. }
  assert (H3 : (λ x, length (List.map (pair x) (constraints x))) <$> wus
               = (λ wu, length (constraints wu)) <$> wus).
  { apply list_fmap_ext. intros _ wu _. apply length_map. }
  assert (H4 : (λ x, length (List.map (pair x) (parents x))) <$> wus
               = (λ wu, length (parents wu)) <$> wus).
  { apply list_fmap_ext. intros _ wu _. apply length_map. }
  rewrite H1, H2, H3, H4. lia.
Qed.

Lemma model_items_count_witness :
  build_model Example.plant 20 true = Ok Example.optimized
  ∧ length (model Example.optimized) = 10%nat.
Proof.
  assert (Hb : build_model Example.plant 20 true = Ok Example.optimized)
    by (vm_compute; reflexivity).
  split; [exact Hb|].
  rewrite (model_items_count Example.plant 20 true Example.optimized Hb).
  vm_compute. reflexivity.
Defined.

(** ** The surrogate and the deadlines *)

Lemma total_elem_le (zs : list Z) (z : Z) :
  (∀ x, x ∈ zs → 0 <= x) → z ∈ zs → 0 <= total zs ∧ z <= total zs.
Proof.
  induction zs as [|x zs IH]; intros Hpos Hz; [by apply elem_of_nil in Hz|].
  rewrite total_cons. assert (0 <= x) by (apply Hpos; left).
  assert (Hzs : 0 <= total zs).
  { clear IH Hz. induction zs as [|y zs IH']; [done|]. rewrite total_cons.
    assert (0 <= y) by (apply Hpos; right; left).
    assert (0 <= total zs) by (apply IH'; intros w [->|Hw]%elem_of_cons;
                                 apply Hpos; [left|right; by right]).
    lia. }
  apply elem_of_cons in Hz as [->|Hz]; [lia|].
  destruct IH as [_ ?]; [intros w Hw; apply Hpos; by right|done|]. lia.
Qed.

(** X17: what a late work unit costs.  With priorities that are not
    negative, the surrogate of a solution in optimize mode is strictly above
    the sum of the completion times, and strictly above that sum plus, for
    any due-dated work unit, 1000 times its priority times its lateness. *)
Theorem surrogate_lower_bounds (wus : list WorkUnit) (ub : Z) (b : Built) :
  build_model wus ub true = Ok b →
  (∀ wu, wu ∈ wus → 0 <= priority wu) →
  ∀ a, nj.satisfies a (model b) = true →
    total_completion a wus < a nj.CmaxId
    ∧ ∀ wu d, wu ∈ wus → due_time wu = Some d →
        1000 * priority wu * (completion_time a wu - d) + total_completion a wus
        < a nj.CmaxId.
Proof.
  intros Hb Hprio a Ha.
  destruct (surrogate_item_ok wus ub b a Hb Ha) as (pen & compl & Hp & Hc & Hok).
  destruct (surrogate_sound a ub _ wus pen compl Hp Hc Hok) as [_ Hgt].
  assert (Hpos : ∀ x, x ∈ (λ p : WorkUnit * Z,
                    1000 * priority p.1 * Z.max 0 (completion_time a p.1 - p.2))
                   <$> due_dated wus → 0 <= x).
  { intros x ([wu d] & -> & [Hwu _]%elem_of_due_dated)%list_elem_of_fmap.
    pose proof (Hprio wu Hwu). simpl. nia. }
  split.
  - destruct (due_dated wus) as [|p ps] eqn:Hdd.
    + unfold weighted_tardiness in Hgt. rewrite Hdd in Hgt.
      unfold total in Hgt at 1. simpl in Hgt. lia.
    + destruct (total_elem_le _ _ Hpos (list_elem_of_here _ _)) as [H0 _].
      unfold weighted_tardiness in Hgt. rewrite Hdd in Hgt. lia.
  - intros wu d Hwu Hd.
    assert (Hin : (wu, d) ∈ due_dated wus) by by apply elem_of_due_dated.
    destruct (total_elem_le _ (1000 * priority wu
                                 * Z.max 0 (completion_time a wu - d)) Hpos)
      as [_ Hle].
    { apply list_elem_of_fmap. by exists (wu, d). }
    unfold weighted_tardiness in Hgt. pose proof (Hprio wu Hwu). nia.
Qed.

Lemma surrogate_lower_bounds_witness :
  build_model Tight.plant 20 true = Ok Tight.optimized
  ∧ nj.satisfies Tight.val (model Tight.optimized) = true
  ∧ 1000 * priority Tight.A * (completion_time Tight.val Tight.A - 4)
    + total_completion Tight.val Tight.plant
    < Tight.val nj.CmaxId.
Proof.
  assert (Hb : build_model Tight.plant 20 true = Ok Tight.optimized)
    by (vm_compute; reflexivity).
  assert (Ha : nj.satisfies Tight.val (model Tight.optimized) = true)
    by (vm_compute; reflexivity).
  split; [exact Hb|]. split; [exact Ha|].
  refine (proj2 (surrogate_lower_bounds Tight.plant 20 Tight.optimized Hb _
                   Tight.val Ha) Tight.A 4 _ eq_refl).
  - intros wu Hwu. apply elem_of_cons in Hwu as [->|Hwu]; [simpl; lia|].
    apply list_elem_of_singleton in Hwu as ->. simpl. lia.
  - left.
Defined.

(** The first and the last task of a work unit with at least two tasks are
    in their domains, whatever the mode: they stand in a chain constraint. *)
Lemma chain_ends_in_horizon (wus : list WorkUnit) (ub : Z) (opt : bool)
    (b : Built) (a : nj.Valuation) (wu : WorkUnit) (tf tl : Task) :
  build_model wus ub opt = Ok b →
  nj.satisfies a (model b) = true →
  wu ∈ wus → (2 <= length (tasks wu))%nat →
  head (tasks wu) = Some tf → last (tasks wu) = Some tl →
  0 <= start_of a tf ∧ start_of a tl + duration tl <= ub.
Proof.
  intros Hb Ha Hwu Hlen Hf Hl. split.
  - destruct (tasks wu) as [|x [|y l]] eqn:Ht; simpl in Hlen; try lia.
    injection Hf as ->.
    destruct (chain_adjacent_sound wus ub opt b a wu 0 tf y Hb Ha Hwu)
      as ([? _] & _); by rewrite ?Ht.
  - rewrite last_lookup in Hl.
    destruct (lookup_lt_is_Some_2 (tasks wu) (pred (pred (length (tasks wu)))))
      as [v Hv]; [lia|].
    replace (pred (length (tasks wu)))
      with (S (pred (pred (length (tasks wu))))) in Hl by lia.
    by destruct (chain_adjacent_sound wus ub opt b a wu _ v tl Hb Ha Hwu Hv Hl)
      as (_ & [_ ?] & _).
Qed.

(** X18: a work unit that does not fit.  In optimize mode, and in either
    mode for a work unit of two tasks or more, a work unit whose durations
    add up to more than [upper_bound] leaves the model without solution. *)
Theorem oversized_work_unit_infeasible (wus : list WorkUnit) (ub : Z)
    (opt : bool) (b : Built) (wu : WorkUnit) :
  build_model wus ub opt = Ok b →
  wu ∈ wus →
  opt = true ∨ (2 <= length (tasks wu))%nat →
  tasks wu ≠ [] →
  ub < total (duration <$> tasks wu) →
  ∀ a, nj.satisfies a (model b) = false.
Proof.
  intros Hb Hwu Hcase Hne Hbig a.
  destruct (nj.satisfies a (model b)) eqn:Ha; [|done]. exfalso.
  destruct (tasks wu) as [|tf rest] eqn:Ht; [done|].
  destruct (last_is_Some (tasks wu)) as [tl Hl]; [by rewrite Ht|].
  assert (Hf : head (tasks wu) = Some tf) by by rewrite Ht.
  assert (Hspan : start_of a tf + total (duration <$> tasks wu) <= end_of a tl).
  { apply chained_span; [|done..]. intros i t t' Hi Hi'.
    by destruct (chain_adjacent_sound wus ub opt b a wu i t t' Hb Ha Hwu Hi Hi')
      as (_ & _ & ?). }
  assert (Hends : 0 <= start_of a tf ∧ start_of a tl + duration tl <= ub).
  { destruct (decide (2 <= length (tasks wu))%nat) as [Hlen|Hlen].
    - by apply (chain_ends_in_horizon wus ub opt b a wu).
    - rewrite Ht in Hlen. simpl in Hlen, Hcase.
      destruct Hcase as [->|?]; [|lia].
      assert (rest = []) as -> by (destruct rest; simpl in Hlen; [done|lia]).
      rewrite Ht in Hl. injection Hl as <-.
      apply (last_task_in_horizon wus ub b a wu tf Hb Ha Hwu).
      by rewrite Ht. }
  rewrite <- Ht in Hbig. unfold end_of in Hspan. lia.
Qed.

Lemma oversized_work_unit_infeasible_witness :
  build_model Example.plant 4 true = Ok Oversized.built
  ∧ 4 < total (duration <$> tasks Example.A)
  ∧ ∀ a, nj.satisfies a (model Oversized.built) = false.
Proof.
  assert (Hb : build_model Example.plant 4 true = Ok Oversized.built)
    by (vm_compute; reflexivity).
  assert (Hbig : 4 < total (duration <$> tasks Example.A))
    by (vm_compute; reflexivity).
  split; [exact Hb|]. split; [exact Hbig|].
  refine (oversized_work_unit_infeasible Example.plant 4 true Oversized.built
            Example.A Hb _ _ _ Hbig).
  - left.
  - by left.
  - discriminate.
Defined.

(** In feasibility mode the deadline of a due-dated work unit is posted on
    its last task. *)
Lemma deadline_sound (wus : list WorkUnit) (ub : Z) (b : Built)
    (a : nj.Valuation) (wu : WorkUnit) (d : Z) :
  build_model wus ub false = Ok b →
  nj.satisfies a (model b) = true →
  wu ∈ wus → due_time wu = Some d →
  ∃ t, last (tasks wu) = Some t
       ∧ 0 <= start_of a t
       ∧ start_of a t + duration t < d.
Proof.
  intros (core & goal & _ & Hgo & ->)%build_model_core Ha Hwu Hd.
  apply objective_feasible_Ok in Hgo as (dls & Hdls & ->).
  assert (Hin : (wu, d) ∈ due_dated wus) by by apply elem_of_due_dated.
  destruct (mapM_Ok_elem _ _ _ _ Hdls Hin) as (c & Hc & Hcin).
  apply deadline_constraint_Ok in Hc as (t & Ht & _ & ->).
  exists t. split; [done|].
  simpl in Ha. unfold nj.satisfies in Ha. rewrite forallb_app in Ha.
  apply andb_true_iff in Ha as [_ Ha]. rewrite forallb_forall in Ha.
  specialize (Ha (nj.Post (nj.CLt (end_expr (nj_task_of ub t) (duration t))
                                  (nj.EConst d)))).
  cbn [nj.item_ok nj.constr_dom nj.expr_dom end_expr] in Ha.
  rewrite !andb_true_iff, in_domain_start in Ha.
  destruct Ha as [[[[? _] _] _] Hlt].
  { apply list_elem_of_In. by apply list_elem_of_fmap_2. }
  split; [done|]. simpl in Hlt. by apply Z.ltb_lt in Hlt.
Qed.

(** X19: a deadline that cannot be met.  In feasibility mode a work unit
    whose due time is not above the sum of the durations of its tasks leaves
    the model without solution, since its first task cannot start before
    time 0. *)
Theorem unmeetable_deadline_infeasible (wus : list WorkUnit) (ub : Z)
    (b : Built) (wu : WorkUnit) (d : Z) :
  build_model wus ub false = Ok b →
  wu ∈ wus →
  due_time wu = Some d →
  d <= total (duration <$> tasks wu) →
  ∀ a, nj.satisfies a (model b) = false.
Proof.
  intros Hb Hwu Hd Hle a.
  destruct (nj.satisfies a (model b)) eqn:Ha; [|done]. exfalso.
  destruct (deadline_sound wus ub b a wu d Hb Ha Hwu Hd) as (tl & Hl & Hl0 & Hlt).
  destruct (tasks wu) as [|tf rest] eqn:Ht; [done|].
  assert (Hf : head (tasks wu) = Some tf) by by rewrite Ht.
  rewrite <- Ht in Hl, Hle.
  assert (Hspan : start_of a tf + total (duration <$> tasks wu) <= end_of a tl).
  { apply chained_span; [|done..]. intros i t t' Hi Hi'.
    by destruct (chain_adjacent_sound wus ub false b a wu i t t' Hb Ha Hwu Hi Hi')
      as (_ & _ & ?). }
  assert (Hstart : 0 <= start_of a tf).
  { destruct rest as [|y rest].
    - rewrite Ht in Hl. by injection Hl as <-.
    - destruct (chain_ends_in_horizon wus ub false b a wu tf tl Hb Ha Hwu)
        as [? _]; [rewrite Ht; simpl; lia|done..]. }
  unfold end_of in Hspan. lia.
Qed.

Lemma unmeetable_deadline_infeasible_witness :
  build_model Tight.plant 20 false = Ok Tight.feasible
  ∧ 4 <= total (duration <$> tasks Tight.A)
  ∧ ∀ a, nj.satisfies a (model Tight.feasible) = false.
Proof.
  assert (Hb : build_model Tight.plant 20 false = Ok Tight.feasible)
    by (vm_compute; reflexivity).
  assert (Hle : 4 <= total (duration <$> tasks Tight.A))
    by (vm_compute; discriminate).
  split; [exact Hb|]. split; [exact Hle|].
  refine (unmeetable_deadline_infeasible Tight.plant 20 Tight.feasible Tight.A 4
            Hb _ eq_refl Hle).
  left.
Defined.

(** ** Dependencies that go round *)

Lemma span_from_first (wus : list WorkUnit) (ub : Z) (opt : bool) (b : Built)
    (a : nj.Valuation) (wu : WorkUnit) (tf tl : Task) :
  build_model wus ub opt = Ok b →
  nj.satisfies a (model b) = true →
  wu ∈ wus → head (tasks wu) = Some tf → last (tasks wu) = Some tl →
  start_of a tf + total (duration <$> tasks wu) <= end_of a tl.
Proof.
  intros Hb Ha Hwu Hf Hl. apply chained_span; [|done..]. intros i t t' Hi Hi'.
  by destruct (chain_adjacent_sound wus ub opt b a wu i t t' Hb Ha Hwu Hi Hi')
    as (_ & _ & ?).
Qed.

(** X20: the builder does not check that the dependencies are acyclic; it
    reads one level of parents, returns, and leaves the matter to the
    engine.  When a work unit has a parent with the tasks of a second work
    unit, which has a parent with the tasks of the first, and their
    durations add up to more than 0, no valuation satisfies the model. *)
Theorem mutual_dependency_infeasible (wus : list WorkUnit) (ub : Z)
    (opt : bool) (b : Built) (wu1 wu2 p1 p2 : WorkUnit) :
  build_model wus ub opt = Ok b →
  wu1 ∈ wus → wu2 ∈ wus →
  p1 ∈ parents wu1 → tasks p1 = tasks wu2 →
  p2 ∈ parents wu2 → tasks p2 = tasks wu1 →
  0 < total (duration <$> tasks wu1) + total (duration <$> tasks wu2) →
  ∀ a, nj.satisfies a (model b) = false.
Proof.
  intros Hb Hw1 Hw2 Hp1 Ht1 Hp2 Ht2 Hpos a.
  destruct (nj.satisfies a (model b)) eqn:Ha; [|done]. exfalso.
  destruct (dependency_sound wus ub opt b a wu1 p1 Hb Ha Hw1 Hp1)
    as (l2 & f1 & Hl2 & Hf1 & H21).
  destruct (dependency_sound wus ub opt b a wu2 p2 Hb Ha Hw2 Hp2)
    as (l1 & f2 & Hl1 & Hf2 & H12).
  rewrite Ht1 in Hl2. rewrite Ht2 in Hl1.
  pose proof (span_from_first wus ub opt b a wu1 f1 l1 Hb Ha Hw1 Hf1 Hl1).
  pose proof (span_from_first wus ub opt b a wu2 f2 l2 Hb Ha Hw2 Hf2 Hl2).
  unfold end_of in *. lia.
Qed.

Lemma mutual_dependency_infeasible_witness :
  build_model [Cycle.U; Cycle.V] 20 false = Ok Cycle.built
  ∧ ∀ a, nj.satisfies a (model Cycle.built) = false.
Proof.
  assert (Hb : build_model [Cycle.U; Cycle.V] 20 false = Ok Cycle.built)
    by (vm_compute; reflexivity).
  split; [exact Hb|].
  refine (mutual_dependency_infeasible [Cycle.U; Cycle.V] 20 false Cycle.built
            Cycle.U Cycle.V Cycle.V Cycle.U0 Hb _ _ _ eq_refl _ eq_refl _).
  - left.
  - right. left.
  - left.
  - left.
  - vm_compute. reflexivity.
Defined.

(** ** What feasibility mode does not read *)

Lemma due_dated_with_priority (f : WorkUnit → Z) (wus : list WorkUnit) :
  due_dated (with_priority f <$> wus)
  = prod_map (with_priority f) id <$> due_dated wus.
Proof.
  unfold due_dated. induction wus as [|wu wus IH]; [done|].
  rewrite fmap_cons.
  change (omap ?g (?x :: ?l))
    with (match g x with Some y => y :: omap g l | None => omap g l end).
  simpl. destruct (due_time wu); simpl; by rewrite IH.
Qed.

Lemma pinned_with_priority (f : WorkUnit → Z) (wus : list WorkUnit) :
  pinned (with_priority f <$> wus)
  = prod_map (with_priority f) id <$> pinned wus.
Proof.
  unfold pinned. induction wus as [|wu wus IH]; [done|].
  rewrite fmap_cons.
  change (omap ?g (?x :: ?l))
    with (match g x with Some y => y :: omap g l | None => omap g l end).
  simpl. destruct (scheduled_start wu); simpl; by rewrite IH.
Qed.

Lemma pairs_with_priority {B} (f : WorkUnit → Z) (items : WorkUnit → list B)
    (wus : list WorkUnit) :
  (∀ wu, items (with_priority f wu) = items wu) →
  flat_map (λ wu, List.map (pair wu) (items wu)) (with_priority f <$> wus)
  = prod_map (with_priority f) id
    <$> flat_map (λ wu, List.map (pair wu) (items wu)) wus.
Proof.
  intros Hitems. induction wus as [|wu wus IH]; [done|].
  rewrite fmap_cons. simpl. rewrite fmap_app, IH, Hitems. f_equal.
  induction (items wu) as [|x l IHl]; [done|].
  simpl. by f_equal.
Qed.

(** X21: priorities only weigh the tardiness of optimize mode.  In
    feasibility mode the builder returns the same model whatever the
    priorities of the work units are. *)
Theorem feasibility_ignores_priority (f : WorkUnit → Z) (wus : list WorkUnit)
    (ub : Z) :
  build_model (with_priority f <$> wus) ub false = build_model wus ub false.
Proof.
  unfold build_model.
  assert (Hall : all_tasks_of (with_priority f <$> wus) = all_tasks_of wus)
    by (unfold all_tasks_of; by rewrite flat_map_fmap).
  rewrite Hall. set (njt := make_nj_tasks ub (all_tasks_of wus)).
  assert (Hchain : chain_constraints njt (with_priority f <$> wus)
                   = chain_constraints njt wus).
  { unfold chain_constraints. by rewrite flat_map_fmap. }
  assert (Hcustom : custom_constraints njt (with_priority f <$> wus)
                    = custom_constraints njt wus).
  { unfold custom_constraints.
    rewrite (pairs_with_priority f constraints) by done.
    rewrite mapM_fmap. apply mapM_ext. by intros [wu c]. }
  assert (Hdeps : dependency_constraints njt (with_priority f <$> wus)
                  = dependency_constraints njt wus).
  { unfold dependency_constraints, dependency_edges.
    rewrite (pairs_with_priority f parents) by done.
    rewrite mapM_fmap. apply mapM_ext. by intros [wu p]. }
  assert (Hpins : pin_constraints njt (with_priority f <$> wus)
                  = pin_constraints njt wus).
  { unfold pin_constraints. rewrite pinned_with_priority, mapM_fmap.
    apply mapM_ext. by intros [wu s]. }
  assert (Hgoal : objective njt (with_priority f <$> wus) false
                  = objective njt wus false).
  { unfold objective. rewrite due_dated_with_priority, mapM_fmap.
    f_equal. apply mapM_ext. by intros [wu d]. }
  by rewrite Hchain, Hcustom, Hdeps, Hpins, Hgoal.
Qed.
